(** * OmniSpread front end: task client, scan form and spread synthesizer

    A shallow embedding of the TypeScript front end of OmniSpread:

    - [Api]   : [lib/api.ts] ([startScan], [getResults], [pollResults]);
    - [Form]  : [components/scan-form.tsx] ([handleScan] of the form);
    - [Home]  : [app/page.tsx] ([handleScan] of the page);
    - [Synth] : the chart effect of [components/pair-detail-modal.tsx].

    Conventions of the embedding.
    - JavaScript numbers that carry measurements (z-score, half-life, chart
      values) are real numbers: rounding, [NaN] and infinities of IEEE
      doubles are not represented.  Counters and milliseconds are integers.
    - Strings are [string]s of 8-bit characters; the character functions
      ([toUpperCase], [trim], the separator class of the split) are the
      restriction of the JavaScript ones to 7-bit ASCII text.
    - [async] code runs in a state-and-exception monad over a [World]: the
      remote service is an oracle indexed by the number of requests already
      sent, and every fetch, observer call and timer wait is appended to a
      chronological event log. *)

From Stdlib Require Import List ZArith String Ascii Bool Arith Lia.
From Stdlib Require Import DecimalString.
From Stdlib Require Import Reals Lra.
From Stdlib Require Import Permutation Sorted.
Import ListNotations.

Set Implicit Arguments.

(* ================================================================== *)
(** ** JavaScript outcomes                                             *)
(* ================================================================== *)

Module Js.

(** The [Error] values the front end can raise.  The three [...Failed]
    constructors carry the [statusText] interpolated in the message. *)
Inductive Error : Type :=
| ScanRequestFailed (statusText : string)   (* "Scan request failed: ..." *)
| ResultsFetchFailed (statusText : string)  (* "Results fetch failed: ..." *)
| PresetsFetchFailed (statusText : string)  (* "Presets fetch failed: ..." *)
| PollingTimedOut                           (* "Polling timed out" *)
| NetworkError                              (* [fetch] itself rejected *)
| TypeError.                                (* property access on undefined *)

(** What running a piece of code gives: a value, a thrown error, or
    [Stuck] when a fuel-bounded loop ran out of fuel. *)
Inductive Outcome (A : Type) : Type :=
| Returns (a : A)
| Throws (e : Error)
| Stuck.

Arguments Throws {A} e.
Arguments Stuck {A}.

(** [Error.message], as [page.tsx] shows it to the user. *)
Definition message (e : Error) : string :=
  match e with
  | ScanRequestFailed t => "Scan request failed: " ++ t
  | ResultsFetchFailed t => "Results fetch failed: " ++ t
  | PresetsFetchFailed t => "Presets fetch failed: " ++ t
  | PollingTimedOut => "Polling timed out"
  | NetworkError => "Failed to fetch"
  | TypeError => "Cannot set properties of undefined"
  end%string.

(** The last element of an array, [None] on the empty one. *)
Fixpoint final {A : Type} (l : list A) : option A :=
  match l with
  | [] => None
  | [x] => Some x
  | _ :: l' => final l'
  end.

End Js.

Import Js.

(* ================================================================== *)
(** ** lib/api.ts                                                      *)
(* ================================================================== *)

Module Api.

Record ScanRequest : Type := mkScanRequest {
  tickers : list string;
  period : string;
  interval : option string;
  start_date : option string;
  end_date : option string
}.

Record SeriesPoint : Type := mkPoint { time : Z; value : R }.

Record PairResult : Type := mkPairResult {
  pair : string;
  combo : string;
  method : string;
  price_corr : R;
  z_score : R;
  half_life : R;
  move_to_mean : R;
  exp_return : R;
  unit_price : R;
  hurst : R;
  prob_profit : R;
  prob_profit_low : R;
  prob_profit_high : R;
  same_sector : string;
  extreme_z_in_hl : string;
  extreme_z_detail : string;
  profitable_since_extreme : string;
  pnl_since_extreme : R;
  historical_z_scores : list SeriesPoint
}.

(** [TaskResult.status]: the four string literals of the union type. *)
Inductive Status : Type := processing | completed | failed | not_found.

Record TaskResult : Type := mkTaskResult {
  task_id : string;
  status : Status;
  results : list PairResult;
  error : option string
}.

(** The test of the polling loop:
    [result.status === "completed" || result.status === "failed"]. *)
Definition is_terminal (s : Status) : bool :=
  match s with
  | completed | failed => true
  | processing | not_found => false
  end.

(** *** The network *)

(** A resolved [fetch]: [res.ok], [res.statusText] and the body that
    [res.json()] yields, already at the type the caller casts it to. *)
Record Response (A : Type) : Type := mkResponse {
  ok : bool;
  statusText : string;
  json : A
}.

Inductive Fetched (A : Type) : Type :=
| Rejected                        (* network failure: the promise rejects *)
| Responded (res : Response A).

Arguments Rejected {A}.

(** The remote service.  Each reply may depend on the request and on
    the number of requests the client has sent before it. *)
Record Remote : Type := mkRemote {
  post_scan : ScanRequest -> nat -> Fetched string;
  get_results : string -> nat -> Fetched TaskResult
}.

(** The observable steps of the client, in the order they happen. *)
Inductive Event : Type :=
| EvPostScan (request : ScanRequest)   (* POST /scan *)
| EvGetResults (taskId : string)       (* GET /results/<taskId> *)
| EvUpdate (result : TaskResult)       (* onUpdate(result) *)
| EvSleep (ms : Z).                    (* setTimeout(resolve, ms) *)

Section Client.

(** [St] is the state owned by the caller of the client (the page's
    React state); observers update it. *)
Variable St : Type.
Variable remote : Remote.

Record World : Type := mkWorld {
  sent : nat;            (* requests sent so far *)
  log : list Event;      (* events so far, oldest first *)
  caller : St
}.

Definition M (A : Type) : Type := World -> Outcome A * World.

Definition ret {A} (a : A) : M A := fun w => (Returns a, w).

Definition throw {A} (e : Error) : M A := fun w => (Throws e, w).

Definition bind {A B} (m : M A) (k : A -> M B) : M B :=
  fun w =>
    match m w with
    | (Returns a, w') => k a w'
    | (Throws e, w') => (Throws e, w')
    | (Stuck, w') => (Stuck, w')
    end.

Definition emit (e : Event) : M unit :=
  fun w => (Returns tt, mkWorld (sent w) (log w ++ [e]) (caller w)).

Definition update_caller (f : St -> St) : M unit :=
  fun w => (Returns tt, mkWorld (sent w) (log w) (f (caller w))).

(** One request leaves the client: the oracle is read at the current
    request count, which then advances. *)
Definition request {A} (e : Event) (reply : nat -> Fetched A)
  : M (Response A) :=
  fun w =>
    let w' := mkWorld (S (sent w)) (log w ++ [e]) (caller w) in
    match reply (sent w) with
    | Rejected => (Throws NetworkError, w')
    | Responded res => (Returns res, w')
    end.

Local Notation "x <- m ;; k" := (bind m (fun x => k))
  (at level 100, m at next level, right associativity).
Local Notation "m ;;; k" := (bind m (fun _ => k))
  (at level 100, right associativity).

(** [startScan]: POST the request, throw on a non-ok response. *)
Definition startScan (req : ScanRequest) : M string :=
  res <- request (EvPostScan req) (post_scan remote req) ;;
  if negb (ok res) then throw (ScanRequestFailed (statusText res))
  else ret (json res).

(** [getResults]: one status fetch, throw on a non-ok response. *)
Definition getResults (taskId : string) : M TaskResult :=
  res <- request (EvGetResults taskId) (get_results remote taskId) ;;
  if negb (ok res) then throw (ResultsFetchFailed (statusText res))
  else ret (json res).

(** [await new Promise((resolve) => setTimeout(resolve, intervalMs))] *)
Definition sleep (ms : Z) : M unit := emit (EvSleep ms).

(** The [while (attempts < maxAttempts)] loop of [pollResults].  Each
    unfolding is one evaluation of the loop test; [fuel] bounds the
    number of unfoldings. *)
Fixpoint poll_loop (fuel : nat) (taskId : string)
    (onUpdate : TaskResult -> St -> St)
    (intervalMs maxAttempts attempts : Z) : M TaskResult :=
  match fuel with
  | O => fun w => (Stuck, w)
  | S fuel' =>
      if (attempts <? maxAttempts)%Z then
        result <- getResults taskId ;;
        emit (EvUpdate result) ;;;
        update_caller (onUpdate result) ;;;
        if is_terminal (status result) then ret result
        else
          sleep intervalMs ;;;
          poll_loop fuel' taskId onUpdate intervalMs maxAttempts
                    (attempts + 1)%Z
      else throw PollingTimedOut
  end.

(** [pollResults] with explicit interval and ceiling: [attempts]
    starts at 0; the loop test is evaluated at most
    [maxAttempts + 1] times. *)
Definition pollResults (taskId : string)
    (onUpdate : TaskResult -> St -> St)
    (intervalMs maxAttempts : Z) : M TaskResult :=
  poll_loop (S (Z.to_nat maxAttempts)) taskId onUpdate
            intervalMs maxAttempts 0%Z.

(** [pollResults(taskId, onUpdate)]: the default parameter values. *)
Definition pollResults_default (taskId : string)
    (onUpdate : TaskResult -> St -> St) : M TaskResult :=
  pollResults taskId onUpdate 2000%Z 300%Z.

(** *** Reading the log and the oracle *)

(** The snapshots delivered to the observer, oldest first. *)
Fixpoint delivered (l : list Event) : list TaskResult :=
  match l with
  | [] => []
  | EvUpdate r :: l' => r :: delivered l'
  | _ :: l' => delivered l'
  end.

Definition is_fetch (e : Event) : bool :=
  match e with EvGetResults _ => true | _ => false end.

Definition is_update (e : Event) : bool :=
  match e with EvUpdate _ => true | _ => false end.

(** The snapshot the [k]-th request would fetch for [taskId], when the
    service answers it with a success response. *)
Definition served (taskId : string) (k : nat) : option TaskResult :=
  match get_results remote taskId k with
  | Responded res => if ok res then Some (json res) else None
  | Rejected => None
  end.

(** The [k]-th request would fetch a snapshot that is not terminal. *)
Definition pending (taskId : string) (k : nat) : Prop :=
  exists r, served taskId k = Some r /\ is_terminal (status r) = false.

(** The events of one poll that fetches a snapshot on request [k] and
    goes on: the fetch, the observer call, the wait. *)
Definition poll_events (taskId : string) (intervalMs : Z) (k : nat)
  : list Event :=
  match served taskId k with
  | Some r => [EvGetResults taskId; EvUpdate r; EvSleep intervalMs]
  | None => []
  end.

(** The events of [n] such polls in a row, the first on request [k]. *)
Fixpoint polls_events (taskId : string) (intervalMs : Z) (k n : nat)
  : list Event :=
  match n with
  | O => []
  | S n' =>
      poll_events taskId intervalMs k ++ polls_events taskId intervalMs (S k) n'
  end.

(** [try { body } catch (err) { handler(err) }] *)
Definition try_catch {A} (body : M A) (handler : Error -> M A) : M A :=
  fun w =>
    match body w with
    | (Throws e, w') => handler e w'
    | r => r
    end.

(** [try { body } finally { cleanup }] *)
Definition try_finally {A} (body : M A) (cleanup : M unit) : M A :=
  fun w =>
    match body w with
    | (Stuck, w') => (Stuck, w')
    | (r, w') =>
        match cleanup w' with
        | (Returns _, w'') => (r, w'')
        | (Throws e, w'') => (Throws e, w'')
        | (Stuck, w'') => (Stuck, w'')
        end
    end.

End Client.

Arguments mkWorld {St} sent log caller.
Arguments ret {St A} a.
Arguments throw {St A} e.

Declare Scope js_scope.
Delimit Scope js_scope with js.
Notation "x <- m ;; k" := (bind m (fun x => k))
  (at level 100, m at next level, right associativity) : js_scope.
Notation "m ;;; k" := (bind m (fun _ => k))
  (at level 100, right associativity) : js_scope.

End Api.

(* ================================================================== *)
(** ** components/scan-form.tsx                                        *)
(* ================================================================== *)

Module Form.

Open Scope string_scope.

(** The character class [\s], on ASCII: tab, line feed, vertical tab,
    form feed, carriage return and space. *)
Definition is_space (c : ascii) : bool :=
  match c with
  | "009" | "010" | "011" | "012" | "013" | " " => true
  | _ => false
  end%char.

(** The character class [[,\s]] of the split pattern. *)
Definition is_separator (c : ascii) : bool :=
  match c with
  | ","%char => true
  | _ => is_space c
  end.

(** [s.split(/[,\s]+/)]: the pieces between the maximal runs of
    separators; a run at either end leaves an empty piece there, and the
    empty string gives one empty piece.  [cur] is the piece being read,
    [in_sep] tells that the previous character was a separator. *)
Fixpoint split_from (s cur : string) (in_sep : bool) : list string :=
  match s with
  | EmptyString => [cur]
  | String c s' =>
      if is_separator c then
        if in_sep then split_from s' EmptyString true
        else cur :: split_from s' EmptyString true
      else split_from s' (cur ++ String c EmptyString) false
  end.

Definition split (s : string) : list string := split_from s EmptyString false.

Fixpoint trimStart (s : string) : string :=
  match s with
  | EmptyString => EmptyString
  | String c s' => if is_space c then trimStart s' else s
  end.

Fixpoint trimEnd (s : string) : string :=
  match s with
  | EmptyString => EmptyString
  | String c s' =>
      match trimEnd s' with
      | EmptyString => if is_space c then EmptyString else String c EmptyString
      | t => String c t
      end
  end.

(** [s.trim()] *)
Definition trim (s : string) : string := trimEnd (trimStart s).

Definition upper_char (c : ascii) : ascii :=
  let n := nat_of_ascii c in
  if ((97 <=? n) && (n <=? 122))%nat then ascii_of_nat (n - 32) else c.

(** [s.toUpperCase()] *)
Fixpoint toUpperCase (s : string) : string :=
  match s with
  | EmptyString => EmptyString
  | String c s' => String (upper_char c) (toUpperCase s')
  end.

(** [Boolean(s)] on a string: false exactly on the empty string. *)
Definition truthy (s : string) : bool :=
  match s with
  | EmptyString => false
  | String _ _ => true
  end.

(** The [useState] cells of the form that [handleScan] reads. *)
Record State : Type := mkState {
  tickerInput : string;
  period : string;
  startDate : string;
  endDate : string
}.

(** One call [onScan(tickers, period, startDate?, endDate?)]: an
    argument that is not passed is [None]. *)
Record OnScan : Type := mkOnScan {
  arg_tickers : list string;
  arg_period : string;
  arg_startDate : option string;
  arg_endDate : option string
}.

(** The ticker list [handleScan] builds from the text area. *)
Definition parse_tickers (input : string) : list string :=
  filter truthy (map (fun t => toUpperCase (trim t)) (split input)).

(** [handleScan] of the form: the call it makes to [onScan], if any. *)
Definition handleScan (st : State) : option OnScan :=
  let tickers := parse_tickers (tickerInput st) in
  if (2 <=? List.length tickers)%nat then
    if String.eqb (period st) "custom" then
      Some (mkOnScan tickers (period st)
                     (Some (startDate st)) (Some (endDate st)))
    else Some (mkOnScan tickers (period st) None None)
  else None.

(** The [disabled] attribute of the Run Scan button. *)
Definition run_disabled (isScanning : bool) (st : State) : bool :=
  isScanning || (String.length (trim (tickerInput st)) =? 0)%nat.

End Form.

(* ================================================================== *)
(** ** app/page.tsx                                                    *)
(* ================================================================== *)

Module Home.

Import Api.
Open Scope string_scope.
Open Scope js_scope.

(** The [useState] cells of the page. *)
Record State : Type := mkState {
  results : list PairResult;
  isScanning : bool;
  selectedPair : option PairResult;
  scanStatus : string;
  error : string
}.

Definition initial : State := mkState [] false None "" "".

Definition setResults (v : list PairResult) (st : State) : State :=
  mkState v (isScanning st) (selectedPair st) (scanStatus st) (error st).

Definition setIsScanning (v : bool) (st : State) : State :=
  mkState (results st) v (selectedPair st) (scanStatus st) (error st).

Definition setScanStatus (v : string) (st : State) : State :=
  mkState (results st) (isScanning st) (selectedPair st) v (error st).

Definition setError (v : string) (st : State) : State :=
  mkState (results st) (isScanning st) (selectedPair st) (scanStatus st) v.

(** The decimal numeral a template literal prints for a count. *)
Definition show_nat (n : nat) : string :=
  NilEmpty.string_of_uint (Nat.to_uint n).

(** The observer [handleScan] passes to [pollResults]. *)
Definition onUpdate (update : TaskResult) (st : State) : State :=
  match status update with
  | processing =>
      setScanStatus "Analyzing cointegration & running Monte Carlo..." st
  | _ => st
  end.

Definition found_message (n : nat) : string :=
  if (0 <? n)%nat then
    "Found " ++ show_nat n ++ " actionable pair" ++ (if (1 <? n)%nat then "s" else "")
  else "No pairs met the Z > 2.0 threshold".

(** [result.error || "Scan failed unexpectedly"] *)
Definition error_or_default (e : option string) : string :=
  match e with
  | Some (String c s) => String c s
  | _ => "Scan failed unexpectedly"
  end.

Section Page.

Variable remote : Remote.

(** The body of the [try] block of [handleScan]. *)
Definition scan_body (tickers : list string) (period : string)
  : M State unit :=
  task_id <- startScan remote (mkScanRequest tickers period None None None) ;;
  update_caller
    (setScanStatus "Scanning pairs — this may take a moment...") ;;;
  result <- pollResults_default remote task_id onUpdate ;;
  match status result with
  | completed =>
      update_caller (setResults (Api.results result)) ;;;
      update_caller
        (setScanStatus (found_message (List.length (Api.results result))))
  | failed =>
      update_caller (setError (error_or_default (Api.error result))) ;;;
      update_caller (setScanStatus "")
  | _ => ret tt
  end.

(** [handleScan] of the page.  It declares two parameters, [tickers] and
    [period]. *)
Definition handleScan (tickers : list string) (period : string)
  : M State unit :=
  update_caller (setIsScanning true) ;;;
  update_caller (setResults []) ;;;
  update_caller (setError "") ;;;
  update_caller (setScanStatus "Starting scan...") ;;;
  try_finally
    (try_catch
       (scan_body tickers period)
       (fun err =>
          update_caller (setError (message err)) ;;;
          update_caller (setScanStatus "")))
    (update_caller (setIsScanning false)).

(** [<ScanForm onScan={handleScan} ... />]: the form calls the page's
    handler with up to four arguments; the handler binds the first two. *)
Definition onScan (call : Form.OnScan) : M State unit :=
  handleScan (Form.arg_tickers call) (Form.arg_period call).

(** A click on Run Scan: nothing happens on a disabled button; otherwise
    the form's [handleScan] runs and makes its call to [onScan], if any. *)
Definition clickRunScan (form : Form.State) : M State unit :=
  fun w =>
    if Form.run_disabled (isScanning (caller w)) form then (Returns tt, w)
    else
      match Form.handleScan form with
      | Some call => onScan call w
      | None => (Returns tt, w)
      end.

(** The request bodies a run has posted to the service, oldest first. *)
Fixpoint posted (l : list Event) : list ScanRequest :=
  match l with
  | [] => []
  | EvPostScan req :: l' => req :: posted l'
  | _ :: l' => posted l'
  end.

End Page.

End Home.

(* ================================================================== *)
(** ** components/pair-detail-modal.tsx: the synthetic spread          *)
(* ================================================================== *)

Module Synth.

Import Api.
Open Scope R_scope.

(** The four arrays handed to the chart. *)
Record Series : Type := mkSeries {
  data : list SeriesPoint;
  upperBand : list SeriesPoint;
  lowerBand : list SeriesPoint;
  meanLine : list SeriesPoint
}.

Definition days : nat := 252.

Definition sigma : R := 1.

(** [Math.exp(-Math.log(2) / halfLife)] *)
Definition phi (halfLife : R) : R := exp (- ln 2 / halfLife).

(** [sigma * Math.sqrt(1 / (2 * Math.log(2) / halfLife))] *)
Definition rollingSigma (halfLife : R) : R :=
  sigma * sqrt (1 / (2 * ln 2 / halfLife)).

(** The right-hand side of the assignment to [spread]; [u] is the value
    of [Math.random()]. *)
Definition next_spread (halfLife u spread : R) : R :=
  phi halfLife * spread
  + sigma * (u - 0.5) * 2 * sqrt (1 - phi halfLife * phi halfLife).

(** The calendar day of iteration [i], counted in days; [now] is today.
    [date.setDate(date.getDate() - (days - i))]. *)
Definition day_of (now : Z) (i : nat) : Z :=
  (now - (Z.of_nat days - Z.of_nat i))%Z.

(** One iteration of the [for] loop: the state is the variable [spread]
    and the four arrays; [rand i] is the draw of iteration [i]. *)
Definition loop_body (now : Z) (rand : nat -> R) (halfLife : R)
    (st : R * Series) (i : nat) : R * Series :=
  let '(spread, s) := st in
  let day := day_of now i in
  let spread' := next_spread halfLife (rand i) spread in
  let rs := rollingSigma halfLife in
  (spread',
   mkSeries (data s ++ [mkPoint day spread'])
            (upperBand s ++ [mkPoint day (2 * rs)])
            (lowerBand s ++ [mkPoint day (-2 * rs)])
            (meanLine s ++ [mkPoint day 0])).

(** The loop [for (let i = 0; i < days; i++)], from [spread = 0] and
    empty arrays. *)
Definition run_loop (now : Z) (rand : nat -> R) (halfLife : R)
  : R * Series :=
  fold_left (loop_body now rand halfLife) (seq 0 days)
            (0, mkSeries [] [] [] []).

(** [arr[arr.length - 1].value = v]: the last point keeps its time; on
    an empty array the element is undefined and the assignment throws. *)
Fixpoint set_last_value (arr : list SeriesPoint) (v : R)
  : option (list SeriesPoint) :=
  match arr with
  | [] => None
  | [p] => Some [mkPoint (time p) v]
  | p :: arr' =>
      match set_last_value arr' v with
      | Some r => Some (p :: r)
      | None => None
      end
  end.

(** The series the effect builds for [pair]: the loop, then the anchor
    assignment to the last point of [data]. *)
Definition synthesize (now : Z) (rand : nat -> R) (pair : PairResult)
  : Outcome Series :=
  let halfLife := half_life pair in
  let '(_, s) := run_loop now rand halfLife in
  let rs := rollingSigma halfLife in
  match set_last_value (data s) (z_score pair * rs) with
  | Some d => Returns (mkSeries d (upperBand s) (lowerBand s) (meanLine s))
  | None => Throws TypeError
  end.

(** The effect returns at once when there is no pair or no container:
    [if (!pair || !chartContainerRef.current) return;]. *)
Definition chartEffect (now : Z) (rand : nat -> R)
    (pair : option PairResult) (container : bool)
  : option (Outcome Series) :=
  match pair with
  | Some p => if container then Some (synthesize now rand p) else None
  | None => None
  end.

(** A pair with the given half-life and z-score, other fields blank. *)
Definition pair_of (halfLife zScore : R) : PairResult :=
  mkPairResult EmptyString EmptyString EmptyString 0 zScore halfLife
               0 0 0 0 0 0 0 EmptyString EmptyString EmptyString EmptyString
               0 [].

(** *** The spread as a random process

    [Math.random()] is an independent draw, with equal probability, from
    a finite non-empty list [draws] of values.  The expectation of a
    function of the spread after [n] iterations is the average over the
    first draw of the expectation over the remaining [n - 1]. *)

Section Process.

Variable draws : list R.

(** The average of [f] over one draw. *)
Definition mean (f : R -> R) : R :=
  fold_right Rplus 0 (map f draws) / INR (List.length draws).

Variable halfLife : R.

(** The expectation of [f spread] after [n] iterations of the loop that
    start from the value [spread]. *)
Fixpoint expect (n : nat) (f : R -> R) (spread : R) : R :=
  match n with
  | O => f spread
  | S n' => mean (fun u => expect n' f (next_spread halfLife u spread))
  end.

(** Mean and variance of the spread after [n] iterations from
    [spread = 0]. *)
Definition spread_mean (n : nat) : R := expect n (fun x => x) 0.

Definition spread_variance (n : nat) : R :=
  expect n (fun x => x * x) 0 - spread_mean n * spread_mean n.

(** The noise factor multiplied by [Math.sqrt(1 - phi * phi)]:
    [sigma * (Math.random() - 0.5) * 2]. *)
Definition noise (u : R) : R := sigma * (u - 0.5) * 2.

Definition noise_variance : R :=
  mean (fun u => noise u * noise u) - mean noise * mean noise.

End Process.

(** [N] equally spaced values [0, 1/N, ..., (N-1)/N] of the interval
    from 0 (included) to 1 (excluded). *)
Definition uniform_draws (N : nat) : list R :=
  map (fun k => INR k / INR N) (seq 0 N).

End Synth.

(* ================================================================== *)
(** ** Sample services and worlds                                      *)
(* ================================================================== *)

Module Fixtures.

Import Api.
Local Open Scope string_scope.

(** Three replies of the service used to exercise the client: the task
    is processing, then unknown, then completed. *)
Definition flip_remote : Remote :=
  mkRemote
    (fun _ _ => Responded (mkResponse true "OK" "t1"))
    (fun id k =>
       Responded
         (mkResponse true "OK"
            (mkTaskResult id
               (match k with
                | 0 => processing
                | 1 => not_found
                | _ => completed
                end) [] None))).

(** A service on which the task never stops processing. *)
Definition busy_remote : Remote :=
  mkRemote
    (fun _ _ => Responded (mkResponse true "OK" "t1"))
    (fun id _ =>
       Responded (mkResponse true "OK" (mkTaskResult id processing [] None))).

Definition world0 : World unit := mkWorld 0 [] tt.

Definition ignore (_ : TaskResult) (u : unit) : unit := u.

(** The page before any scan. *)
Definition home0 : World Home.State := mkWorld 0 [] Home.initial.

(** Two spellings of one ticker, a preset period. *)
Definition form_repeat : Form.State :=
  Form.mkState "AAPL aapl" "1y" "" "".

(** Two tickers, a custom period and both dates chosen. *)
Definition form_custom : Form.State :=
  Form.mkState "AAPL, MSFT" "custom" "2020-01-01" "2021-01-01".

(** Two tickers, a custom period and no date chosen. *)
Definition form_no_dates : Form.State :=
  Form.mkState "AAPL, MSFT" "custom" "" "".

(** A single ticker. *)
Definition form_single : Form.State :=
  Form.mkState "AAPL" "1y" "" "".

End Fixtures.

(* ================================================================== *)
(** ** components/scan-form.tsx: presets                               *)
(* ================================================================== *)

Module Preset.

Open Scope string_scope.

(** [Presets = Record<string, string[]>]: the keys in their order, each
    with its ticker list; [presets[key]] reads the entry of [key]. *)
Definition Presets : Type := list (string * list string).

Fixpoint lookup (presets : Presets) (key : string) : option (list string) :=
  match presets with
  | [] => None
  | (k, v) :: rest => if String.eqb k key then Some v else lookup rest key
  end.

(** [arr.join(sep)] *)
Fixpoint join (sep : string) (arr : list string) : string :=
  match arr with
  | [] => EmptyString
  | [x] => x
  | x :: rest => x ++ sep ++ join sep rest
  end.

(** [s.split(sep)] for a separator of one character: the pieces between
    the occurrences of [sep]; never an empty array. *)
Fixpoint split_on (sep : ascii) (s : string) : list string :=
  match s with
  | EmptyString => [EmptyString]
  | String c s' =>
      if Ascii.eqb c sep then EmptyString :: split_on sep s'
      else
        match split_on sep s' with
        | [] => [String c EmptyString]
        | piece :: pieces => String c piece :: pieces
        end
  end.

(** The form's state with the presets: the cells [handleScan] reads,
    the fetched presets and the highlighted preset. *)
Record State : Type := mkState {
  form : Form.State;
  presets : Presets;
  activePreset : option string
}.

Definition setTickerInput (v : string) (f : Form.State) : Form.State :=
  Form.mkState v (Form.period f) (Form.startDate f) (Form.endDate f).

(** [handlePreset]: a known key fills the text area with its tickers
    joined by ", " and becomes the active preset; an unknown key does
    nothing. *)
Definition handlePreset (key : string) (st : State) : State :=
  match lookup (presets st) key with
  | Some tickers =>
      mkState (setTickerInput (join ", " tickers) (form st))
              (presets st) (Some key)
  | None => st
  end.

(** The [onChange] of the text area. *)
Definition onTickerChange (v : string) (st : State) : State :=
  mkState (setTickerInput v (form st)) (presets st) None.




(** The characters of a string. *)
Fixpoint chars (s : string) : list ascii :=
  match s with
  | EmptyString => []
  | String c s' => c :: chars s'
  end.

End Preset.

(* ================================================================== *)
(** ** components/results-table.tsx                                    *)
(* ================================================================== *)

Module Table.

Import Api.
Open Scope R_scope.

(** [SortKey = keyof PairResult], split by the type of the field. *)
Inductive NumKey : Type :=
| k_price_corr | k_z_score | k_half_life | k_move_to_mean | k_exp_return
| k_unit_price | k_hurst | k_prob_profit | k_prob_profit_low
| k_prob_profit_high | k_pnl_since_extreme.

Inductive StrKey : Type :=
| k_pair | k_combo | k_method | k_same_sector | k_extreme_z_in_hl
| k_extreme_z_detail | k_profitable_since_extreme | k_historical_z_scores.

Inductive SortKey : Type :=
| OfNum (k : NumKey)
| OfStr (k : StrKey).

(** [a[sortKey]] for a key of a number field. *)
Definition num_field (k : NumKey) (p : PairResult) : R :=
  match k with
  | k_price_corr => price_corr p
  | k_z_score => z_score p
  | k_half_life => half_life p
  | k_move_to_mean => move_to_mean p
  | k_exp_return => exp_return p
  | k_unit_price => unit_price p
  | k_hurst => hurst p
  | k_prob_profit => prob_profit p
  | k_prob_profit_low => prob_profit_low p
  | k_prob_profit_high => prob_profit_high p
  | k_pnl_since_extreme => pnl_since_extreme p
  end.

(** [String(a[sortKey])] for the other keys; an array of objects prints
    as its elements' "[object Object]" joined by commas. *)
Definition str_field (k : StrKey) (p : PairResult) : string :=
  match k with
  | k_pair => pair p
  | k_combo => combo p
  | k_method => method p
  | k_same_sector => same_sector p
  | k_extreme_z_in_hl => extreme_z_in_hl p
  | k_extreme_z_detail => extreme_z_detail p
  | k_profitable_since_extreme => profitable_since_extreme p
  | k_historical_z_scores =>
      Preset.join ","
        (map (fun _ => "[object Object]"%string) (historical_z_scores p))
  end.

Definition num_key_eqb (a b : NumKey) : bool :=
  match a, b with
  | k_price_corr, k_price_corr | k_z_score, k_z_score
  | k_half_life, k_half_life | k_move_to_mean, k_move_to_mean
  | k_exp_return, k_exp_return | k_unit_price, k_unit_price
  | k_hurst, k_hurst | k_prob_profit, k_prob_profit
  | k_prob_profit_low, k_prob_profit_low
  | k_prob_profit_high, k_prob_profit_high
  | k_pnl_since_extreme, k_pnl_since_extreme => true
  | _, _ => false
  end.

Definition str_key_eqb (a b : StrKey) : bool :=
  match a, b with
  | k_pair, k_pair | k_combo, k_combo | k_method, k_method
  | k_same_sector, k_same_sector | k_extreme_z_in_hl, k_extreme_z_in_hl
  | k_extreme_z_detail, k_extreme_z_detail
  | k_profitable_since_extreme, k_profitable_since_extreme
  | k_historical_z_scores, k_historical_z_scores => true
  | _, _ => false
  end.

(** [sortKey === key] *)
Definition key_eqb (a b : SortKey) : bool :=
  match a, b with
  | OfNum x, OfNum y => num_key_eqb x y
  | OfStr x, OfStr y => str_key_eqb x y
  | _, _ => false
  end.

(** The two [useState] cells of the table. *)
Record State : Type := mkState {
  sortKey : SortKey;
  sortAsc : bool
}.

(** [useState("prob_profit")], [useState(false)] *)
Definition initial : State := mkState (OfNum k_prob_profit) false.

(** [handleSort]: a click on the sorted column flips the direction; a
    click on another column sorts by it, descending. *)
Definition handleSort (key : SortKey) (st : State) : State :=
  if key_eqb (sortKey st) key then mkState (sortKey st) (negb (sortAsc st))
  else mkState key false.

Section Sorting.

(** [a.localeCompare(b)]: the collation of the browser's locale. *)
Variable localeCompare : string -> string -> R.

(** The comparator handed to [sort]. *)
Definition compare (st : State) (a b : PairResult) : R :=
  match sortKey st with
  | OfNum k =>
      let av := num_field k a in
      let bv := num_field k b in
      if sortAsc st then av - bv else bv - av
  | OfStr k =>
      let av := str_field k a in
      let bv := str_field k b in
      if sortAsc st then localeCompare av bv else localeCompare bv av
  end.

(** [Array.prototype.sort] is stable: an element moves in front of the
    ones it compares strictly below, and stays behind the ones it
    compares equal to.  On a comparator that orders the elements
    consistently (the numeric ones do) that fixes the result, which is
    computed here by insertion: [insert] puts [x], which came first, in
    its place among the sorted elements that came after it. *)
Fixpoint insert (cmp : PairResult -> PairResult -> R) (x : PairResult)
    (l : list PairResult) : list PairResult :=
  match l with
  | [] => [x]
  | y :: l' =>
      if Rle_dec (cmp x y) 0 then x :: y :: l'
      else y :: insert cmp x l'
  end.

Fixpoint sort (cmp : PairResult -> PairResult -> R) (l : list PairResult)
  : list PairResult :=
  match l with
  | [] => []
  | x :: l' => insert cmp x (sort cmp l')
  end.

(** [const sorted = [...results].sort(...)] *)
Definition sorted (st : State) (results : list PairResult)
  : list PairResult :=
  sort (compare st) results.

(** What the component renders. *)
Inductive View : Type :=
| Skeleton                          (* isLoading *)
| Nothing                           (* no results: [null] *)
| Rows (rows : list PairResult).    (* the table body, top to bottom *)

Definition render (st : State) (results : list PairResult)
    (isLoading : bool) : View :=
  if isLoading then Skeleton
  else
    match results with
    | [] => Nothing
    | _ => Rows (sorted st results)
    end.

End Sorting.

End Table.

(* ================================================================== *)
(** ** components/pair-detail-modal.tsx: the signal line               *)
(* ================================================================== *)

Module Modal.

Import Api.
Open Scope string_scope.

(** The four parts of the line
    "Signal: <action> <leg> — <action> <leg>"; a leg is [None] when
    [pair.pair.split("/")] has no such element. *)
Record Signal : Type := mkSignal {
  first_action : string;
  first_leg : option string;
  second_action : string;
  second_leg : option string
}.

Definition signal (p : PairResult) : Signal :=
  let legs := Preset.split_on "/" (pair p) in
  if Rlt_dec 0 (z_score p) then
    mkSignal "Sell" (nth_error legs 0) "Buy" (nth_error legs 1)
  else
    mkSignal "Buy" (nth_error legs 0) "Sell" (nth_error legs 1).

End Modal.

(* ================================================================== *)
(** ** Readings of runs used in the statements                         *)
(* ================================================================== *)

Module Reading.

Import Api.

(** The error [getResults] throws on a reply, if any. *)
Definition results_error (f : Fetched TaskResult) : option Error :=
  match f with
  | Rejected => Some NetworkError
  | Responded res =>
      if ok res then None else Some (ResultsFetchFailed (statusText res))
  end.

(** The error [startScan] throws on a reply, if any. *)
Definition scan_error (f : Fetched string) : option Error :=
  match f with
  | Rejected => Some NetworkError
  | Responded res =>
      if ok res then None else Some (ScanRequestFailed (statusText res))
  end.

(** The task id [startScan] returns on a reply, if any. *)
Definition scan_handle (f : Fetched string) : option string :=
  match f with
  | Rejected => None
  | Responded res => if ok res then Some (json res) else None
  end.

(** An event of a polling loop for [taskId] with interval [ms]. *)
Definition poll_event (taskId : string) (ms : Z) (e : Event) : Prop :=
  e = EvGetResults taskId \/ (exists r, e = EvUpdate r) \/ e = EvSleep ms.

(** The observer of a loop applied to snapshots, oldest first. *)
Definition observe {St : Type} (onUpdate : TaskResult -> St -> St)
    (snapshots : list TaskResult) (st : St) : St :=
  fold_left (fun s r => onUpdate r s) snapshots st.

(** The page as [handleScan] leaves it before the request is posted. *)
Definition started (st : Home.State) : Home.State :=
  Home.setScanStatus "Starting scan..."
    (Home.setError "" (Home.setResults [] (Home.setIsScanning true st))).

(** The branches of [handleScan] on the Task that polling returned. *)
Definition shown (result : TaskResult) (st : Home.State) : Home.State :=
  match status result with
  | completed =>
      Home.setScanStatus
        (Home.found_message (List.length (results result)))
        (Home.setResults (results result) st)
  | failed =>
      Home.setScanStatus ""
        (Home.setError (Home.error_or_default (error result)) st)
  | _ => st
  end.

(** The [catch] block followed by the [finally] block. *)
Definition caught (e : Error) (st : Home.State) : Home.State :=
  Home.setIsScanning false
    (Home.setScanStatus "" (Home.setError (message e) st)).

End Reading.

(* ================================================================== *)
(** ** More sample services and inputs                                 *)
(* ================================================================== *)

Module Samples.

Import Api.
Local Open Scope string_scope.

(** A service that refuses the scan. *)
Definition refusing_remote : Remote :=
  mkRemote
    (fun _ _ => Responded (mkResponse false "Bad Request" ""))
    (fun id _ =>
       Responded (mkResponse true "OK" (mkTaskResult id processing [] None))).

(** A service whose task is processing once, then cannot be fetched. *)
Definition flaky_remote : Remote :=
  mkRemote
    (fun _ _ => Responded (mkResponse true "OK" "t1"))
    (fun id k =>
       match k with
       | 0 | 1 =>
           Responded
             (mkResponse true "OK" (mkTaskResult id processing [] None))
       | _ =>
           Responded
             (mkResponse false "Bad Gateway"
                (mkTaskResult id processing [] None))
       end).

(** A service whose task fails with a message after one poll. *)
Definition failing_remote : Remote :=
  mkRemote
    (fun _ _ => Responded (mkResponse true "OK" "t1"))
    (fun id k =>
       match k with
       | 0 | 1 =>
           Responded
             (mkResponse true "OK" (mkTaskResult id processing [] None))
       | _ =>
           Responded
             (mkResponse true "OK"
                (mkTaskResult id failed [] (Some "no data")))
       end).

Definition two_presets : Preset.Presets :=
  [("mega_tech", ["AAPL"; "MSFT"; "GOOGL"]); ("energy", ["XOM"; "CVX"])].

Definition blank_form : Form.State := Form.mkState "" "3y" "" "".

Definition preset_state : Preset.State :=
  Preset.mkState blank_form two_presets None.

End Samples.

(* ================================================================== *)
(** ** Facts about the task client                                     *)
(* ================================================================== *)

Module ApiFacts.

Import Api Fixtures.

Lemma final_snoc (A : Type) (l : list A) (x : A) : final (l ++ [x]) = Some x.
Proof.
  induction l as [|a l IH]; [reflexivity|].
  simpl. destruct (l ++ [x]) eqn:E; [|exact IH].
  destruct l; discriminate.
Qed.

Section Polling.

Variable St : Type.
Variable remote : Remote.
Variable taskId : string.
Variable onUpdate : TaskResult -> St -> St.
Variables intervalMs maxAttempts : Z.

Local Abbreviation loop fuel :=
  (poll_loop remote fuel taskId onUpdate intervalMs maxAttempts).

Lemma delivered_app (l1 l2 : list Event) :
  delivered (l1 ++ l2) = delivered l1 ++ delivered l2.
Proof.
  induction l1 as [|e l1 IH]; [reflexivity|].
  destruct e; simpl; rewrite IH; reflexivity.
Qed.

(** What one fetch does, read off the oracle. *)
Lemma getResults_run (w : World St) :
  getResults remote taskId w =
  let w' := mkWorld (S (sent w)) (log w ++ [EvGetResults taskId]) (caller w) in
  match get_results remote taskId (sent w) with
  | Rejected => (Throws NetworkError, w')
  | Responded res =>
      if ok res then (Returns (json res), w')
      else (Throws (ResultsFetchFailed (statusText res)), w')
  end.
Proof.
  unfold getResults, bind, request.
  destruct (get_results remote taskId (sent w)) as [|res]; [reflexivity|].
  destruct (ok res); reflexivity.
Qed.

Lemma getResults_served (w : World St) (r : TaskResult) :
  served remote taskId (sent w) = Some r ->
  getResults remote taskId w =
  (Returns r, mkWorld (S (sent w)) (log w ++ [EvGetResults taskId]) (caller w)).
Proof.
  unfold served. rewrite getResults_run.
  destruct (get_results remote taskId (sent w)) as [|res]; [discriminate|].
  destruct (ok res); [|discriminate].
  intros [= <-]. reflexivity.
Qed.

(** The loop test fails: the timeout is thrown, the world is untouched. *)
Lemma loop_exhausted (fuel : nat) (attempts : Z) (w : World St) :
  (maxAttempts <= attempts)%Z ->
  loop (S fuel) attempts w = (Throws PollingTimedOut, w).
Proof.
  intros H. simpl.
  destruct (Z.ltb_spec attempts maxAttempts); [lia|reflexivity].
Qed.

(** A poll that fetches a snapshot that is not terminal delivers it,
    waits and goes round the loop again. *)
Lemma loop_continue (fuel : nat) (attempts : Z) (w : World St) (r : TaskResult) :
  (attempts < maxAttempts)%Z ->
  served remote taskId (sent w) = Some r ->
  is_terminal (status r) = false ->
  loop (S fuel) attempts w =
  loop fuel (attempts + 1)%Z
       (mkWorld (S (sent w))
                (log w ++ [EvGetResults taskId; EvUpdate r; EvSleep intervalMs])
                (onUpdate r (caller w))).
Proof.
  intros Hlt Hs Ht. simpl.
  destruct (Z.ltb_spec attempts maxAttempts); [|lia].
  unfold bind at 1. rewrite (getResults_served _ Hs).
  unfold bind, emit, update_caller, sleep; simpl. rewrite Ht. simpl.
  rewrite <- !app_assoc. reflexivity.
Qed.

(** A poll that fetches a terminal snapshot delivers it and returns it. *)
Lemma loop_stop (fuel : nat) (attempts : Z) (w : World St) (r : TaskResult) :
  (attempts < maxAttempts)%Z ->
  served remote taskId (sent w) = Some r ->
  is_terminal (status r) = true ->
  loop (S fuel) attempts w =
  (Returns r,
   mkWorld (S (sent w)) (log w ++ [EvGetResults taskId; EvUpdate r])
           (onUpdate r (caller w))).
Proof.
  intros Hlt Hs Ht. simpl.
  destruct (Z.ltb_spec attempts maxAttempts); [|lia].
  unfold bind at 1. rewrite (getResults_served _ Hs).
  unfold bind, emit, update_caller, ret; simpl. rewrite Ht.
  rewrite <- !app_assoc. reflexivity.
Qed.

(** With more fuel than attempts left the loop never runs out of it. *)
Lemma loop_total (fuel : nat) : forall (attempts : Z) (w : World St),
  (Z.to_nat (maxAttempts - attempts) < fuel)%nat ->
  fst (loop fuel attempts w) <> Stuck.
Proof.
  induction fuel as [|fuel IH]; intros attempts w Hf; [lia|].
  simpl. destruct (Z.ltb_spec attempts maxAttempts) as [Hlt|Hge];
    [|discriminate].
  unfold bind at 1. rewrite getResults_run.
  destruct (get_results remote taskId (sent w)) as [|res]; [discriminate|].
  destruct (ok res); simpl; [|discriminate].
  unfold bind, emit, update_caller, sleep, ret; simpl.
  destruct (is_terminal (status (json res))); simpl; [discriminate|].
  apply IH. lia.
Qed.

(** Whatever the loop returns is terminal and was the last snapshot
    handed to the observer. *)
Lemma loop_returns (fuel : nat) :
  forall (attempts : Z) (w w' : World St) (r : TaskResult),
  loop fuel attempts w = (Returns r, w') ->
  is_terminal (status r) = true /\ final (delivered (log w')) = Some r.
Proof.
  induction fuel as [|fuel IH]; intros attempts w w' r; [discriminate|].
  simpl. destruct (attempts <? maxAttempts)%Z; [|discriminate].
  unfold bind at 1. rewrite getResults_run.
  destruct (get_results remote taskId (sent w)) as [|res]; [discriminate|].
  destruct (ok res); simpl; [|discriminate].
  unfold bind, emit, update_caller, sleep, ret; simpl.
  destruct (is_terminal (status (json res))) eqn:Ht; simpl.
  - intros [= <- <-]. split; [exact Ht|]. simpl.
    rewrite delivered_app. simpl. apply final_snoc.
  - apply IH.
Qed.

(** [n] polls that are all pending use up the attempts: the loop throws
    the timeout after exactly their events. *)
Lemma loop_times_out (n : nat) :
  forall (fuel : nat) (attempts : Z) (w : World St),
  n = Z.to_nat (maxAttempts - attempts) ->
  (n < fuel)%nat ->
  (forall i, (i < n)%nat -> pending remote taskId (sent w + i)) ->
  fst (loop fuel attempts w) = Throws PollingTimedOut /\
  log (snd (loop fuel attempts w)) =
    log w ++ polls_events remote taskId intervalMs (sent w) n /\
  sent (snd (loop fuel attempts w)) = (sent w + n)%nat.
Proof.
  induction n as [|n IH]; intros fuel attempts w Hn Hf Hp;
    (destruct fuel as [|fuel]; [lia|]).
  - rewrite loop_exhausted by lia. simpl.
    rewrite app_nil_r, Nat.add_0_r. auto.
  - destruct (Hp 0%nat ltac:(lia)) as (r & Hs & Ht).
    rewrite Nat.add_0_r in Hs.
    rewrite (loop_continue fuel w (r := r)) by (assumption || lia).
    edestruct (IH fuel (attempts + 1)%Z) as (Ho & Hl & Hc);
      [ | | | rewrite Ho, Hl, Hc; simpl ]; try lia.
    + simpl. intros i Hi. replace (S (sent w + i)) with (sent w + S i)%nat by lia.
      apply Hp. lia.
    + unfold poll_events at 1. rewrite Hs. simpl.
      rewrite <- !app_assoc. simpl. split; [reflexivity|]. split; [reflexivity|lia].
Qed.

(** The events of [n] pending polls: [n] fetches, [n] observer calls,
    and a wait at the very end. *)
Lemma polls_events_shape (n : nat) : forall k,
  (forall i, (i < n)%nat -> pending remote taskId (k + i)) ->
  List.length (filter is_fetch (polls_events remote taskId intervalMs k n)) = n /\
  List.length (filter is_update (polls_events remote taskId intervalMs k n)) = n /\
  ((0 < n)%nat ->
   exists evs, polls_events remote taskId intervalMs k n
               = evs ++ [EvSleep intervalMs]).
Proof.
  induction n as [|n IH]; intros k Hp.
  - simpl. repeat split; auto. lia.
  - destruct (Hp 0%nat ltac:(lia)) as (r & Hs & _). rewrite Nat.add_0_r in Hs.
    destruct (IH (S k)) as (Hf & Hu & Hl).
    { intros i Hi. replace (S k + i)%nat with (k + S i)%nat by lia. apply Hp. lia. }
    simpl. unfold poll_events. rewrite Hs. simpl.
    rewrite Hf, Hu. repeat split; auto.
    intros _. destruct n as [|n].
    + exists [EvGetResults taskId; EvUpdate r]. reflexivity.
    + destruct Hl as (evs & ->); [lia|].
      exists (EvGetResults taskId :: EvUpdate r :: EvSleep intervalMs :: evs).
      reflexivity.
Qed.

End Polling.

(** C1. For every handle, interval and ceiling, [pollResults] does not
    hang; a Task it returns is terminal ([completed] or [failed]) and is
    the last snapshot delivered to the observer; and when every poll up
    to the ceiling fetches a snapshot that is not terminal, the call
    fails with the polling timeout instead of returning. *)
Theorem pollResults_terminal_or_timeout :
  forall (St : Type) (remote : Remote) (taskId : string)
         (onUpdate : TaskResult -> St -> St) (intervalMs maxAttempts : Z)
         (w : World St),
    let run := pollResults remote taskId onUpdate intervalMs maxAttempts w in
    fst run <> Stuck /\
    (forall r, fst run = Returns r ->
       (status r = completed \/ status r = failed) /\
       final (delivered (log (snd run))) = Some r) /\
    ((forall i, (i < Z.to_nat maxAttempts)%nat ->
        pending remote taskId (sent w + i)) ->
     fst run = Throws PollingTimedOut).
Proof.
  intros St remote taskId onUpdate intervalMs maxAttempts w run.
  subst run. unfold pollResults. split; [|split].
  - apply loop_total. rewrite Z.sub_0_r. lia.
  - intros r Hr.
    destruct (poll_loop remote (S (Z.to_nat maxAttempts)) taskId onUpdate
                        intervalMs maxAttempts 0 w) as [out w'] eqn:E.
    simpl in Hr. subst out.
    apply loop_returns in E. destruct E as [Ht Hl].
    split; [|exact Hl].
    destruct (status r); simpl in Ht; auto; discriminate.
  - intros Hp.
    apply loop_times_out with (n := Z.to_nat maxAttempts); auto.
    rewrite Z.sub_0_r. reflexivity.
Qed.

Lemma pollResults_terminal_or_timeout_witness :
  fst (pollResults busy_remote "t1"%string ignore 2000 3 world0)
  = Throws PollingTimedOut.
Proof.
  apply (pollResults_terminal_or_timeout
           busy_remote "t1"%string ignore 2000 3 world0).
  intros i _. eexists. split; reflexivity.
Defined.

(** C2. A poll that fetches status [not_found] is a successful poll:
    [getResults] returns the snapshot; it throws only when the transport
    fails (the fetch rejects, or the response is not a success, which
    gives the "Results fetch failed" error).  In the loop the snapshot
    is delivered to the observer, the loop waits and polls again; and a
    handle whose polls fetch [processing], then [not_found], then
    [completed] makes [pollResults] return the completed Task (the
    ceiling allowing three polls). *)
Theorem not_found_poll_is_delivered_and_loop_continues :
  forall (St : Type) (remote : Remote) (taskId : string)
         (onUpdate : TaskResult -> St -> St) (intervalMs maxAttempts : Z)
         (w : World St),
    (forall res,
       get_results remote taskId (sent w) = Responded res ->
       ok res = true -> status (json res) = not_found ->
       fst (getResults remote taskId w) = Returns (json res)) /\
    (forall e,
       fst (getResults remote taskId w) = Throws e ->
       (get_results remote taskId (sent w) = Rejected /\ e = NetworkError) \/
       (exists res,
          get_results remote taskId (sent w) = Responded res /\
          ok res = false /\ e = ResultsFetchFailed (statusText res))) /\
    (forall fuel attempts r,
       (attempts < maxAttempts)%Z ->
       served remote taskId (sent w) = Some r -> status r = not_found ->
       poll_loop remote (S fuel) taskId onUpdate intervalMs maxAttempts
                 attempts w =
       poll_loop remote fuel taskId onUpdate intervalMs maxAttempts
                 (attempts + 1)%Z
                 (mkWorld (S (sent w))
                    (log w ++ [EvGetResults taskId; EvUpdate r;
                               EvSleep intervalMs])
                    (onUpdate r (caller w)))) /\
    (forall r1 r2 r3,
       (3 <= maxAttempts)%Z ->
       served remote taskId (sent w) = Some r1 -> status r1 = processing ->
       served remote taskId (sent w + 1) = Some r2 -> status r2 = not_found ->
       served remote taskId (sent w + 2) = Some r3 -> status r3 = completed ->
       pollResults remote taskId onUpdate intervalMs maxAttempts w =
       (Returns r3,
        mkWorld (sent w + 3)
          (log w ++ [EvGetResults taskId; EvUpdate r1; EvSleep intervalMs;
                     EvGetResults taskId; EvUpdate r2; EvSleep intervalMs;
                     EvGetResults taskId; EvUpdate r3])
          (onUpdate r3 (onUpdate r2 (onUpdate r1 (caller w)))))).
Proof.
  intros St remote taskId onUpdate intervalMs maxAttempts w.
  split; [|split; [|split]].
  - intros res Hres Hok _. rewrite getResults_run, Hres. simpl.
    rewrite Hok. reflexivity.
  - intros e. rewrite getResults_run.
    destruct (get_results remote taskId (sent w)) as [|res] eqn:Hres; simpl.
    + intros [= <-]. left. split; reflexivity.
    + destruct (ok res) eqn:Hok; simpl; [discriminate|].
      intros [= <-]. right. exists res. repeat split; assumption.
  - intros fuel attempts r Hlt Hs Hst.
    apply loop_continue; auto. rewrite Hst. reflexivity.
  - intros r1 r2 r3 Hmax H1 S1 H2 S2 H3 S3.
    unfold pollResults.
    destruct (Z.to_nat maxAttempts) as [|[|[|n]]] eqn:En; try lia.
    rewrite loop_continue with (r := r1);
      [|lia|assumption|rewrite S1; reflexivity].
    rewrite loop_continue with (r := r2);
      [|lia|cbn [sent]; rewrite <- H2; f_equal; lia|rewrite S2; reflexivity].
    rewrite loop_stop with (r := r3);
      [|lia|cbn [sent]; rewrite <- H3; f_equal; lia|rewrite S3; reflexivity].
    cbn [sent log caller].
    rewrite <- !app_assoc. simpl. do 3 f_equal. lia.
Qed.

Lemma not_found_poll_is_delivered_and_loop_continues_witness :
  fst (pollResults_default flip_remote "t1"%string ignore world0)
  = Returns (mkTaskResult "t1" completed [] None).
Proof.
  unfold pollResults_default.
  rewrite (proj2 (proj2 (proj2
    (not_found_poll_is_delivered_and_loop_continues
       flip_remote "t1"%string ignore 2000 300 world0)))
    (mkTaskResult "t1" processing [] None)
    (mkTaskResult "t1" not_found [] None)
    (mkTaskResult "t1" completed [] None));
    solve [reflexivity | lia].
Defined.

(** C10. When every status fetch up to the ceiling returns a status
    that is not terminal, the loop makes exactly [maxAttempts] fetches
    and exactly [maxAttempts] observer calls, and the last thing it does
    before it throws the timeout is the wait of a full poll interval
    that follows the last fetch. *)
Theorem timeout_follows_a_full_interval :
  forall (St : Type) (remote : Remote) (taskId : string)
         (onUpdate : TaskResult -> St -> St) (intervalMs maxAttempts : Z)
         (w : World St),
    (0 <= maxAttempts)%Z ->
    (forall i, (i < Z.to_nat maxAttempts)%nat ->
       pending remote taskId (sent w + i)) ->
    let run := pollResults remote taskId onUpdate intervalMs maxAttempts w in
    let evs :=
      polls_events remote taskId intervalMs (sent w) (Z.to_nat maxAttempts) in
    fst run = Throws PollingTimedOut /\
    log (snd run) = log w ++ evs /\
    Z.of_nat (List.length (filter is_fetch evs)) = maxAttempts /\
    Z.of_nat (List.length (filter is_update evs)) = maxAttempts /\
    ((0 < maxAttempts)%Z -> final (log (snd run)) = Some (EvSleep intervalMs)).
Proof.
  intros St remote taskId onUpdate intervalMs maxAttempts w Hmax Hp run evs.
  destruct (@loop_times_out St remote taskId onUpdate intervalMs maxAttempts
              (Z.to_nat maxAttempts) (S (Z.to_nat maxAttempts)) 0%Z w)
    as (Ho & Hl & _); auto.
  { rewrite Z.sub_0_r. reflexivity. }
  destruct (@polls_events_shape remote taskId intervalMs
              (Z.to_nat maxAttempts) (sent w) Hp)
    as (Hf & Hu & Hs).
  subst run evs. unfold pollResults.
  split; [exact Ho|]. split; [exact Hl|].
  rewrite Hf, Hu. split; [lia|]. split; [lia|].
  intros Hpos. rewrite Hl.
  destruct Hs as (evs' & ->); [lia|].
  rewrite app_assoc. apply final_snoc.
Qed.

Lemma timeout_follows_a_full_interval_witness :
  let run := pollResults busy_remote "t1"%string ignore 2000 3 world0 in
  fst run = Throws PollingTimedOut /\
  List.length (filter is_fetch (log (snd run))) = 3%nat /\
  List.length (filter is_update (log (snd run))) = 3%nat /\
  final (log (snd run)) = Some (EvSleep 2000).
Proof.
  destruct (@timeout_follows_a_full_interval
              unit busy_remote "t1"%string ignore 2000 3 world0)
    as (Ho & Hl & _ & _ & Hs).
  - lia.
  - intros i _. eexists. split; reflexivity.
  - cbv zeta. split; [exact Ho|]. rewrite Hl.
    split; [reflexivity|]. split; [reflexivity|].
    rewrite <- Hl. apply Hs. lia.
Defined.

End ApiFacts.

(* ================================================================== *)
(** ** Facts about the scan form and the page                          *)
(* ================================================================== *)

Module ScanFacts.

Import Api Fixtures.

Lemma posted_app (l1 l2 : list Event) :
  Home.posted (l1 ++ l2) = Home.posted l1 ++ Home.posted l2.
Proof.
  induction l1 as [|e l1 IH]; [reflexivity|].
  destruct e; simpl; rewrite IH; reflexivity.
Qed.

(** Polling posts no scan request. *)
Lemma poll_loop_posted (St : Type) (remote : Remote) (taskId : string)
    (onUpdate : TaskResult -> St -> St) (intervalMs maxAttempts : Z)
    (fuel : nat) :
  forall (attempts : Z) (w : World St),
    Home.posted
      (log (snd (poll_loop remote fuel taskId onUpdate intervalMs
                           maxAttempts attempts w)))
    = Home.posted (log w).
Proof.
  induction fuel as [|fuel IH]; intros attempts w; [reflexivity|].
  simpl. destruct (attempts <? maxAttempts)%Z; [|reflexivity].
  unfold bind at 1. rewrite ApiFacts.getResults_run.
  destruct (get_results remote taskId (sent w)) as [|res]; simpl.
  - rewrite posted_app, app_nil_r. reflexivity.
  - destruct (ok res); simpl; [|rewrite posted_app, app_nil_r; reflexivity].
    unfold bind, emit, update_caller, sleep, ret; simpl.
    destruct (is_terminal (status (json res))); simpl.
    + rewrite !posted_app, !app_nil_r. reflexivity.
    + rewrite IH. simpl. rewrite !posted_app, !app_nil_r. reflexivity.
Qed.

(** The page's handler posts exactly one request: the tickers and the
    period it was given, and none of the optional fields. *)
Lemma handleScan_posted (remote : Remote) (tickers : list string)
    (period : string) (w : World Home.State) :
  Home.posted (log (snd (Home.handleScan remote tickers period w)))
  = Home.posted (log w) ++ [mkScanRequest tickers period None None None].
Proof.
  unfold Home.handleScan, try_finally, try_catch, Home.scan_body, startScan.
  unfold bind at 1 2 3 4. unfold update_caller at 1 2 3 4. simpl.
  unfold bind at 1. unfold bind at 1. unfold request. simpl.
  destruct (post_scan remote _ (sent w)) as [|res]; simpl.
  - rewrite posted_app. reflexivity.
  - destruct (ok res); simpl; [|rewrite posted_app; reflexivity].
    unfold bind at 1. unfold update_caller at 1. simpl.
    unfold bind at 1. unfold pollResults_default, pollResults.
    match goal with
    | |- context [poll_loop ?r ?f ?t ?o ?i ?m ?a ?w0] =>
        pose proof (poll_loop_posted r t o i m f a w0) as Hp;
        destruct (poll_loop r f t o i m a w0) as [[result| e |] w1]
    end; simpl in Hp |- *.
    + destruct (status result); unfold bind, update_caller, ret; simpl;
        rewrite Hp, posted_app; reflexivity.
    + rewrite Hp, posted_app. reflexivity.
    + rewrite Hp, posted_app. reflexivity.
Qed.

Lemma upper_char_idempotent (c : ascii) :
  Form.upper_char (Form.upper_char c) = Form.upper_char c.
Proof. destruct c as [[] [] [] [] [] [] [] []]; reflexivity. Qed.

Lemma toUpperCase_idempotent (s : string) :
  Form.toUpperCase (Form.toUpperCase s) = Form.toUpperCase s.
Proof.
  induction s as [|c s IH]; [reflexivity|].
  simpl. rewrite upper_char_idempotent, IH. reflexivity.
Qed.

(** Every ticker the form builds is a non-empty upper-case string. *)
Lemma parse_tickers_upper (input : string) :
  Forall (fun t => t <> EmptyString /\ Form.toUpperCase t = t)
         (Form.parse_tickers input).
Proof.
  unfold Form.parse_tickers. apply Forall_forall. intros t Ht.
  apply filter_In in Ht. destruct Ht as [Hin Htruthy].
  apply in_map_iff in Hin. destruct Hin as (x & <- & _).
  split.
  - intros E. rewrite E in Htruthy. discriminate.
  - apply toUpperCase_idempotent.
Qed.

(** A string that trims to the empty string starts with a space and
    its tail trims to the empty string. *)
Lemma trim_cons_empty (c : ascii) (s : string) :
  Form.trim (String c s) = EmptyString ->
  Form.is_space c = true /\ Form.trim s = EmptyString.
Proof.
  unfold Form.trim. simpl.
  destruct (Form.is_space c) eqn:Hc; [auto|].
  simpl. rewrite Hc.
  destruct (Form.trimEnd s); discriminate.
Qed.

Lemma is_space_separator (c : ascii) :
  Form.is_space c = true -> Form.is_separator c = true.
Proof.
  unfold Form.is_separator.
  destruct c as [[] [] [] [] [] [] [] []]; simpl; auto.
Qed.

(** Splitting a string of spaces leaves empty pieces only. *)
Lemma split_blank (s : string) : forall in_sep : bool,
  Form.trim s = EmptyString ->
  Forall (eq EmptyString) (Form.split_from s EmptyString in_sep).
Proof.
  induction s as [|c s IH]; intros in_sep Ht; simpl.
  - constructor; [reflexivity|constructor].
  - apply trim_cons_empty in Ht. destruct Ht as [Hc Ht].
    rewrite (is_space_separator _ Hc).
    destruct in_sep; [apply IH; exact Ht|].
    constructor; [reflexivity|apply IH; exact Ht].
Qed.

(** A blank text area holds no ticker. *)
Lemma parse_tickers_blank (input : string) :
  Form.trim input = EmptyString -> Form.parse_tickers input = [].
Proof.
  intros Ht. unfold Form.parse_tickers, Form.split.
  pose proof (split_blank input false Ht) as Hall.
  induction Hall as [|t l <- _ IH]; [reflexivity|exact IH].
Qed.

(** With a ticker in the text area, the button is disabled only while a
    scan is running. *)
Lemma run_enabled (isScanning : bool) (form : Form.State) :
  Form.parse_tickers (Form.tickerInput form) <> [] ->
  Form.run_disabled isScanning form = isScanning.
Proof.
  intros Hne. unfold Form.run_disabled.
  destruct (Form.trim (Form.tickerInput form)) eqn:Ht.
  - exfalso. apply Hne. apply parse_tickers_blank. exact Ht.
  - simpl. apply orb_false_r.
Qed.

(** What a click on an enabled Run Scan button does. *)
Lemma clickRunScan_enabled (remote : Remote) (form : Form.State)
    (w : World Home.State) :
  Form.run_disabled (Home.isScanning (caller w)) form = false ->
  Home.clickRunScan remote form w =
  if (2 <=? List.length (Form.parse_tickers (Form.tickerInput form)))%nat
  then Home.handleScan remote (Form.parse_tickers (Form.tickerInput form))
                       (Form.period form) w
  else (Returns tt, w).
Proof.
  intros Hen. unfold Home.clickRunScan, Form.handleScan, Home.onScan.
  rewrite Hen.
  destruct (2 <=? List.length (Form.parse_tickers (Form.tickerInput form)))%nat;
    [|reflexivity].
  destruct (String.eqb (Form.period form) "custom"); reflexivity.
Qed.

(** C5 (counterexample). A custom period with no dates chosen raises no
    error: the scan is posted to the service and runs to completion
    with an empty error message; and a single ticker raises no error
    either, the click does nothing at all. *)
Lemma incomplete_custom_range_is_submitted :
  let run := Home.clickRunScan flip_remote form_no_dates home0 in
  (fst run = Returns tt /\
   (exists req,
      Home.posted (log (snd run)) = [req] /\
      tickers req = ["AAPL"; "MSFT"]%string /\
      period req = "custom"%string) /\
   Home.error (caller (snd run)) = EmptyString) /\
  Home.clickRunScan flip_remote form_single home0 = (Returns tt, home0).
Proof.
  vm_compute. split; [|reflexivity]. split; [reflexivity|].
  split; [|reflexivity]. eexists. repeat split.
Qed.

(** C5 (amended). With fewer than two tickers after normalization the
    click makes no network call and raises no error: it returns
    normally and leaves the log and the page state untouched.  With two
    or more tickers a click while no scan is running posts the request,
    whatever the period and whatever the start and end dates are: the
    custom date pair is not validated. *)
Theorem short_ticker_list_is_dropped_silently :
  forall (remote : Remote) (form : Form.State) (w : World Home.State),
    ((List.length (Form.parse_tickers (Form.tickerInput form)) < 2)%nat ->
     Home.clickRunScan remote form w = (Returns tt, w)) /\
    ((2 <= List.length (Form.parse_tickers (Form.tickerInput form)))%nat ->
     Home.isScanning (caller w) = false ->
     exists req,
       Home.posted (log (snd (Home.clickRunScan remote form w)))
       = Home.posted (log w) ++ [req] /\
       tickers req = Form.parse_tickers (Form.tickerInput form) /\
       period req = Form.period form).
Proof.
  intros remote form w. split.
  - intros Hlt. unfold Home.clickRunScan, Form.handleScan.
    destruct (Form.run_disabled _ form); [reflexivity|].
    destruct (Nat.leb_spec 2
                (List.length (Form.parse_tickers (Form.tickerInput form))));
      [lia|reflexivity].
  - intros Hge Hidle. rewrite clickRunScan_enabled.
    + destruct (Nat.leb_spec 2
                  (List.length (Form.parse_tickers (Form.tickerInput form))));
        [|lia].
      eexists. split; [apply handleScan_posted|]. split; reflexivity.
    + rewrite run_enabled; [exact Hidle|].
      intros E. rewrite E in Hge. simpl in Hge. lia.
Qed.

Lemma short_ticker_list_is_dropped_silently_witness :
  Home.clickRunScan flip_remote form_single home0 = (Returns tt, home0) /\
  exists req,
    Home.posted (log (snd (Home.clickRunScan flip_remote form_no_dates home0)))
    = Home.posted (log home0) ++ [req] /\
    tickers req = Form.parse_tickers (Form.tickerInput form_no_dates) /\
    period req = Form.period form_no_dates.
Proof.
  split.
  - apply (proj1 (short_ticker_list_is_dropped_silently
                    flip_remote form_single home0)).
    vm_compute. lia.
  - apply (proj2 (short_ticker_list_is_dropped_silently
                    flip_remote form_no_dates home0)).
    + vm_compute. lia.
    + reflexivity.
Defined.

(** C8 (the code at the failing input). The form hands both dates to
    [onScan], and the request the page posts carries neither. *)
Lemma custom_dates_are_not_sent :
  Form.handleScan form_custom
  = Some (Form.mkOnScan ["AAPL"; "MSFT"]%string "custom"
            (Some "2020-01-01"%string) (Some "2021-01-01"%string)) /\
  Home.posted (log (snd (Home.clickRunScan flip_remote form_custom home0)))
  = [mkScanRequest ["AAPL"; "MSFT"]%string "custom" None None None].
Proof. vm_compute. split; reflexivity. Qed.

(** C9 (counterexample). Two spellings of one ticker are submitted as a
    list that holds the same symbol twice. *)
Lemma submitted_tickers_can_repeat :
  exists req,
    In req (Home.posted
              (log (snd (Home.clickRunScan flip_remote form_repeat home0)))) /\
    tickers req = ["AAPL"; "AAPL"]%string /\
    ~ NoDup (tickers req).
Proof.
  exists (mkScanRequest ["AAPL"; "AAPL"]%string "1y" None None None).
  split; [vm_compute; left; reflexivity|]. split; [reflexivity|].
  simpl. intros H. inversion H as [|x l Hn _]. apply Hn. left. reflexivity.
Qed.

(** C9 (amended). A click on Run Scan submits at most one request; the
    ticker list of a submitted request is the list the form parsed: it
    has at least two entries, each a non-empty upper-case symbol.
    Repeated symbols are kept. *)
Theorem submitted_tickers_uppercase_at_least_two :
  forall (remote : Remote) (form : Form.State) (w : World Home.State),
    let w' := snd (Home.clickRunScan remote form w) in
    Home.posted (log w') = Home.posted (log w) \/
    exists req,
      Home.posted (log w') = Home.posted (log w) ++ [req] /\
      tickers req = Form.parse_tickers (Form.tickerInput form) /\
      (2 <= List.length (tickers req))%nat /\
      Forall (fun t => t <> EmptyString /\ Form.toUpperCase t = t)
             (tickers req).
Proof.
  intros remote form w w'. subst w'.
  destruct (Form.run_disabled (Home.isScanning (caller w)) form) eqn:Hen.
  - left. unfold Home.clickRunScan. rewrite Hen. reflexivity.
  - rewrite clickRunScan_enabled by exact Hen.
    destruct (Nat.leb_spec 2
                (List.length (Form.parse_tickers (Form.tickerInput form))))
      as [Hge|Hlt]; [|left; reflexivity].
    right. eexists. split; [apply handleScan_posted|]. simpl.
    split; [reflexivity|]. split; [exact Hge|]. apply parse_tickers_upper.
Qed.

End ScanFacts.

(* ================================================================== *)
(** ** Facts about the synthetic spread                                *)
(* ================================================================== *)

Module SynthFacts.

Import Api Synth.
Local Open Scope R_scope.

Lemma ln2_pos : 0 < ln 2.
Proof. rewrite <- ln_1. apply ln_increasing; lra. Qed.

(** For a positive half-life the code's [rollingSigma] is
    [sqrt (halfLife / (2 ln 2))]. *)
Lemma rollingSigma_positive_half_life (h : R) :
  0 < h -> rollingSigma h = sqrt (h / (2 * ln 2)).
Proof.
  intros Hh. unfold rollingSigma, sigma. rewrite Rmult_1_l. f_equal.
  pose proof ln2_pos. field. split; lra.
Qed.

(** For a positive half-life [phi] lies strictly between 0 and 1. *)
Lemma phi_range (h : R) : 0 < h -> 0 < phi h < 1.
Proof.
  intros Hh. unfold phi. split; [apply exp_pos|].
  rewrite <- exp_0. apply exp_increasing.
  pose proof ln2_pos as Hl.
  unfold Rdiv. rewrite <- Ropp_mult_distr_l.
  apply Ropp_lt_gt_0_contravar. apply Rmult_lt_0_compat; [exact Hl|].
  apply Rinv_0_lt_compat. exact Hh.
Qed.

Lemma set_last_value_snoc (arr : list SeriesPoint) (p : SeriesPoint) (v : R) :
  set_last_value (arr ++ [p]) v = Some (arr ++ [mkPoint (time p) v]).
Proof.
  induction arr as [|q arr IH]; [reflexivity|].
  simpl. rewrite IH. destruct (arr ++ [p]) eqn:E; [|reflexivity].
  destruct arr; discriminate.
Qed.

Section Loop.

Variable now : Z.
Variable rand : nat -> R.
Variable h : R.

(** The three constant arrays after the loop has run over the indices
    [l]: one point per index, at the day of the index. *)
Lemma loop_bands (l : list nat) : forall st : R * Series,
  let st' := fold_left (loop_body now rand h) l st in
  upperBand (snd st')
  = upperBand (snd st)
    ++ map (fun i => mkPoint (day_of now i) (2 * rollingSigma h)) l /\
  lowerBand (snd st')
  = lowerBand (snd st)
    ++ map (fun i => mkPoint (day_of now i) (-2 * rollingSigma h)) l /\
  meanLine (snd st')
  = meanLine (snd st) ++ map (fun i => mkPoint (day_of now i) 0) l /\
  List.length (data (snd st')) = (List.length (data (snd st)) + List.length l)%nat.
Proof.
  induction l as [|i l IH]; intros [spread s]; simpl.
  - rewrite !app_nil_r, Nat.add_0_r. auto.
  - destruct (IH (loop_body now rand h (spread, s) i)) as (Hu & Hl & Hm & Hd).
    simpl in Hu, Hl, Hm, Hd. rewrite Hu, Hl, Hm, Hd.
    rewrite <- !app_assoc, length_app. simpl.
    repeat split; try reflexivity. lia.
Qed.

(** The first point of [data] is drawn from the first index. *)
Lemma loop_first_point (l : list nat) : forall (st : R * Series) (p : SeriesPoint),
  nth_error (data (snd st)) 0 = Some p ->
  nth_error (data (snd (fold_left (loop_body now rand h) l st))) 0 = Some p.
Proof.
  induction l as [|i l IH]; intros [spread s] p Hp; [exact Hp|].
  simpl. apply IH. simpl. simpl in Hp.
  destruct (data s); [discriminate|exact Hp].
Qed.

(** The loop over the indices [0 .. n]: [n] points, then the point of
    index [n]; the first point comes from the first draw. *)
Lemma loop_data (n : nat) :
  let st' := fold_left (loop_body now rand h) (seq 0 (S n))
                       (0, mkSeries [] [] [] []) in
  exists (interior : list SeriesPoint) (v : R),
    List.length interior = n /\
    data (snd st') = interior ++ [mkPoint (day_of now n) v] /\
    nth_error (data (snd st')) 0
    = Some (mkPoint (day_of now 0) (next_spread h (rand 0%nat) 0)).
Proof.
  intros st'. subst st'.
  rewrite seq_S, fold_left_app. simpl Nat.add.
  pose proof (loop_bands (seq 0 n) (0, mkSeries [] [] [] [])) as Hb.
  cbv zeta in Hb. destruct Hb as (_ & _ & _ & Hlen).
  rewrite length_seq in Hlen. cbn [snd data List.length Nat.add] in Hlen.
  assert (Hfirst : forall p, (0 < n)%nat ->
            nth_error (data (snd (fold_left (loop_body now rand h) (seq 0 n)
                                            (0, mkSeries [] [] [] [])))) 0
            = Some p ->
            p = mkPoint (day_of now 0) (next_spread h (rand 0%nat) 0)).
  { intros p Hn. destruct n as [|m]; [lia|].
    cbn [seq fold_left].
    rewrite loop_first_point
      with (p := mkPoint (day_of now 0) (next_spread h (rand 0%nat) 0));
      [congruence|reflexivity]. }
  destruct (fold_left (loop_body now rand h) (seq 0 n)
                      (0, mkSeries [] [] [] [])) as [spread s] eqn:E.
  cbn [fold_left loop_body snd data] in *.
  exists (data s), (next_spread h (rand n) spread).
  split; [exact Hlen|]. split; [reflexivity|].
  destruct n as [|m].
  - destruct (data s); [|discriminate]. simpl in E. injection E as <- _.
    reflexivity.
  - destruct (data s) as [|p d]; [discriminate|]. simpl.
    f_equal. apply Hfirst; [lia|reflexivity].
Qed.

End Loop.

(** The series the synthesizer returns, array by array: [data] is some
    [days - 1] points followed by the anchor; the other three arrays
    are constant and do not depend on the draws. *)
Lemma synthesize_returns (now : Z) (rand : nat -> R) (pair : PairResult) :
  exists interior : list SeriesPoint,
    List.length interior = 251%nat /\
    nth_error (interior ++ [mkPoint (day_of now 251)
                               (z_score pair * rollingSigma (half_life pair))]) 0
    = Some (mkPoint (day_of now 0)
              (next_spread (half_life pair) (rand 0%nat) 0)) /\
    synthesize now rand pair =
    Returns
      (mkSeries
         (interior ++ [mkPoint (day_of now 251)
                         (z_score pair * rollingSigma (half_life pair))])
         (map (fun i => mkPoint (day_of now i)
                          (2 * rollingSigma (half_life pair))) (seq 0 days))
         (map (fun i => mkPoint (day_of now i)
                          (-2 * rollingSigma (half_life pair))) (seq 0 days))
         (map (fun i => mkPoint (day_of now i) 0) (seq 0 days))).
Proof.
  unfold synthesize, run_loop.
  pose proof (loop_bands now rand (half_life pair) (seq 0 days)
                (0, mkSeries [] [] [] [])) as Hb.
  cbv zeta in Hb. cbn [snd upperBand lowerBand meanLine data app] in Hb.
  destruct Hb as (Hu & Hl & Hm & _).
  pose proof (loop_data now rand (half_life pair) 251) as Hd.
  cbv zeta in Hd. destruct Hd as (interior & v & Hlen & Hdata & Hfirst).
  change (S 251) with days in Hdata, Hfirst.
  destruct (fold_left (loop_body now rand (half_life pair)) (seq 0 days)
              (0, mkSeries [] [] [] [])) as [spread s].
  cbn [snd] in *. rewrite Hdata, set_last_value_snoc. cbn [time].
  exists interior. split; [exact Hlen|]. split.
  - rewrite Hdata in Hfirst.
    destruct interior; [discriminate|exact Hfirst].
  - rewrite Hu, Hl, Hm. reflexivity.
Qed.

Lemma sqrt_one_minus_phi2_pos (h : R) :
  0 < h -> 0 < sqrt (1 - phi h * phi h).
Proof.
  intros Hh. destruct (phi_range Hh) as [H0 H1].
  apply sqrt_lt_R0. nra.
Qed.

(** C3. For a strictly positive half-life and every z-score the
    synthesizer returns a series of [days] points whose last point is
    [z_score * sqrt (halfLife / (2 ln 2))], whose upper band is
    [2 * sqrt (halfLife / (2 ln 2))] at every point, whose lower band
    is the negation of that at every point, and whose reference line is
    zero at every point. *)
Theorem anchor_and_bands_for_positive_half_life :
  forall (now : Z) (rand : nat -> R) (pair : PairResult),
    0 < half_life pair ->
    let rs := sqrt (half_life pair / (2 * ln 2)) in
    exists s,
      synthesize now rand pair = Returns s /\
      (exists p, final (data s) = Some p /\ value p = z_score pair * rs) /\
      Forall (fun p => value p = 2 * rs) (upperBand s) /\
      Forall (fun p => value p = - (2 * rs)) (lowerBand s) /\
      Forall (fun p => value p = 0) (meanLine s) /\
      List.length (data s) = days /\
      List.length (upperBand s) = days /\
      List.length (lowerBand s) = days /\
      List.length (meanLine s) = days.
Proof.
  intros now rand pair Hh rs.
  destruct (synthesize_returns now rand pair) as (interior & Hlen & _ & Hs).
  rewrite (rollingSigma_positive_half_life Hh) in Hs. fold rs in Hs.
  eexists. split; [exact Hs|]. cbn [data upperBand lowerBand meanLine].
  assert (Hconst : forall (v w : R) (l : list nat), v = w ->
            Forall (fun p => value p = w)
                   (map (fun i => mkPoint (day_of now i) v) l)).
  { intros v w l <-. apply Forall_forall. intros p Hp.
    apply in_map_iff in Hp. destruct Hp as (i & <- & _). reflexivity. }
  split; [eexists; split; [apply ApiFacts.final_snoc|reflexivity]|].
  split; [apply Hconst; reflexivity|].
  split; [apply Hconst; lra|].
  split; [apply Hconst; reflexivity|].
  rewrite length_app, Hlen, !length_map, !length_seq.
  split; [reflexivity|]. split; [reflexivity|]. split; reflexivity.
Qed.

Lemma anchor_and_bands_for_positive_half_life_witness :
  exists s,
    synthesize 0 (fun _ => 0.5) (pair_of 30 2.5) = Returns s /\
    (exists p, final (data s) = Some p /\
               value p = 2.5 * sqrt (30 / (2 * ln 2))) /\
    Forall (fun p => value p = 2 * sqrt (30 / (2 * ln 2))) (upperBand s) /\
    Forall (fun p => value p = - (2 * sqrt (30 / (2 * ln 2)))) (lowerBand s) /\
    Forall (fun p => value p = 0) (meanLine s).
Proof.
  destruct (@anchor_and_bands_for_positive_half_life
              0%Z (fun _ => 0.5) (pair_of 30 2.5))
    as (s & Hs & Hlast & Hu & Hl & Hm & _).
  - simpl. lra.
  - exists s. simpl in Hlast, Hu, Hl. auto.
Defined.

(** C4 (counterexample). With a half-life of zero, and with a negative
    one, the synthesizer raises nothing and returns a series. *)
Lemma non_positive_half_life_returns_a_series :
  (exists s, synthesize 0 (fun _ => 0) (pair_of 0 1) = Returns s) /\
  (exists s, synthesize 0 (fun _ => 0) (pair_of (-1) 1) = Returns s).
Proof.
  split.
  - destruct (synthesize_returns 0 (fun _ => 0) (pair_of 0 1))
      as (interior & _ & _ & Hs).
    eexists. exact Hs.
  - destruct (synthesize_returns 0 (fun _ => 0) (pair_of (-1) 1))
      as (interior & _ & _ & Hs).
    eexists. exact Hs.
Qed.

(** C4 (amended). The synthesizer does not check its parameters: for
    every half-life, zero and negative ones included, it raises no
    error and returns a series of [days] points with its two bands and
    its reference line. *)
Theorem synthesize_never_fails :
  forall (now : Z) (rand : nat -> R) (pair : PairResult),
    exists s,
      synthesize now rand pair = Returns s /\
      List.length (data s) = days /\
      List.length (upperBand s) = days /\
      List.length (lowerBand s) = days /\
      List.length (meanLine s) = days.
Proof.
  intros now rand pair.
  destruct (synthesize_returns now rand pair) as (interior & Hlen & _ & Hs).
  eexists. split; [exact Hs|]. cbn [data upperBand lowerBand meanLine].
  rewrite length_app, Hlen, !length_map, !length_seq.
  split; [reflexivity|]. split; [reflexivity|]. split; reflexivity.
Qed.

(** C6. Two runs on one pair (same half-life, same z-score) with
    arbitrary draws both return; the values of their last points are
    identical and the values of their bands and reference lines are
    identical at every index, and when the runs happen on the same day
    the points themselves are.  The interior is not pinned: for a
    positive half-life, runs whose first draws differ have different
    first values. *)
Theorem anchor_and_bands_do_not_depend_on_draws :
  forall (now1 now2 : Z) (pair : PairResult) (rand1 rand2 : nat -> R),
    exists s1 s2,
      synthesize now1 rand1 pair = Returns s1 /\
      synthesize now2 rand2 pair = Returns s2 /\
      option_map value (final (data s1)) = option_map value (final (data s2)) /\
      map value (upperBand s1) = map value (upperBand s2) /\
      map value (lowerBand s1) = map value (lowerBand s2) /\
      map value (meanLine s1) = map value (meanLine s2) /\
      (now1 = now2 ->
       final (data s1) = final (data s2) /\
       upperBand s1 = upperBand s2 /\
       lowerBand s1 = lowerBand s2 /\
       meanLine s1 = meanLine s2) /\
      (0 < half_life pair -> rand1 0%nat <> rand2 0%nat ->
       option_map value (nth_error (data s1) 0)
       <> option_map value (nth_error (data s2) 0)).
Proof.
  intros now1 now2 pair rand1 rand2.
  destruct (synthesize_returns now1 rand1 pair) as (i1 & _ & Hf1 & Hs1).
  destruct (synthesize_returns now2 rand2 pair) as (i2 & _ & Hf2 & Hs2).
  eexists. eexists. split; [exact Hs1|]. split; [exact Hs2|].
  cbn [data upperBand lowerBand meanLine].
  split; [rewrite !ApiFacts.final_snoc; reflexivity|].
  rewrite !map_map. cbn [value].
  split; [reflexivity|]. split; [reflexivity|]. split; [reflexivity|].
  split.
  - intros <-. rewrite !ApiFacts.final_snoc. repeat split; reflexivity.
  - intros Hh Hne. rewrite Hf1, Hf2. cbn [option_map value].
    intros E. injection E as E.
    apply Hne. unfold next_spread, sigma in E.
    pose proof (sqrt_one_minus_phi2_pos Hh) as Hc.
    set (c := sqrt (1 - phi (half_life pair) * phi (half_life pair))) in *.
    nra.
Qed.

Lemma anchor_and_bands_do_not_depend_on_draws_witness :
  exists s1 s2,
    synthesize 0 (fun _ => 0) (pair_of 30 2.5) = Returns s1 /\
    synthesize 0 (fun _ => 0.5) (pair_of 30 2.5) = Returns s2 /\
    final (data s1) = final (data s2) /\
    upperBand s1 = upperBand s2 /\
    lowerBand s1 = lowerBand s2 /\
    meanLine s1 = meanLine s2 /\
    option_map value (nth_error (data s1) 0)
    <> option_map value (nth_error (data s2) 0).
Proof.
  destruct (anchor_and_bands_do_not_depend_on_draws
              0%Z 0%Z (pair_of 30 2.5) (fun _ => 0) (fun _ => 0.5))
    as (s1 & s2 & H1 & H2 & _ & _ & _ & _ & Hsame & Hd).
  destruct (Hsame eq_refl) as (Hf & Hu & Hl & Hm).
  exists s1, s2. repeat split; auto.
  apply Hd; simpl; lra.
Defined.

(** *** The spread as a random process *)

Section ProcessFacts.

Variable draws : list R.
Hypothesis draws_nonempty : draws <> [].

Lemma draws_count_pos : 0 < INR (List.length draws).
Proof.
  apply lt_0_INR. destruct draws; [contradiction|simpl; lia].
Qed.

Lemma mean_ext (f g : R -> R) :
  (forall u, f u = g u) -> mean draws f = mean draws g.
Proof.
  intros E. unfold mean. f_equal. f_equal. apply map_ext. exact E.
Qed.

(** The average is linear: the average of a quadratic polynomial in the
    noise is the polynomial of its first two averages. *)
Lemma mean_quadratic (a b d : R) :
  mean draws (fun u => a + b * noise u + d * (noise u * noise u))
  = a + b * mean draws noise + d * mean draws (fun u => noise u * noise u).
Proof.
  pose proof draws_count_pos as Hn. unfold mean.
  assert (Hsum :
    fold_right Rplus 0
      (map (fun u => a + b * noise u + d * (noise u * noise u)) draws)
    = INR (List.length draws) * a
      + b * fold_right Rplus 0 (map noise draws)
      + d * fold_right Rplus 0 (map (fun u => noise u * noise u) draws)).
  { clear. induction draws as [|u l IH]; [simpl; ring|].
    change (List.length (u :: l)) with (S (List.length l)).
    rewrite S_INR. simpl. rewrite IH. ring. }
  rewrite Hsum. field. lra.
Qed.

Variable h : R.
Hypothesis h_pos : 0 < h.

Lemma next_spread_noise (u s : R) :
  next_spread h u s
  = phi h * s + noise u * sqrt (1 - phi h * phi h).
Proof. reflexivity. Qed.

(** The first two moments after [n] iterations from any start: the
    mean is affine in the start, the variance does not depend on it and
    is the noise variance scaled by [1 - phi^(2n)]. *)
Lemma expect_moments (n : nat) : forall s : R,
  expect draws h n (fun x => x) s = phi h ^ n * s + spread_mean draws h n /\
  expect draws h n (fun x => x * x) s
  - expect draws h n (fun x => x) s * expect draws h n (fun x => x) s
  = noise_variance draws * (1 - (phi h * phi h) ^ n).
Proof.
  pose proof (sqrt_one_minus_phi2_pos h_pos) as Hc.
  assert (Hcc : sqrt (1 - phi h * phi h) * sqrt (1 - phi h * phi h)
                = 1 - phi h * phi h).
  { apply sqrt_sqrt. destruct (phi_range h_pos). nra. }
  set (c := sqrt (1 - phi h * phi h)) in *.
  induction n as [|n IH]; intros s.
  - unfold spread_mean. simpl. split; [ring|]. generalize (noise_variance draws). intros v. ring.
  - assert (Hmean : forall s0,
      expect draws h (S n) (fun x => x) s0
      = phi h ^ n * (phi h * s0) + spread_mean draws h n
        + phi h ^ n * c * mean draws noise).
    { intros s0. simpl.
      rewrite (mean_ext _
        (fun u => (phi h ^ n * (phi h * s0) + spread_mean draws h n)
                  + (phi h ^ n * c) * noise u
                  + 0 * (noise u * noise u))).
      - rewrite mean_quadratic. ring.
      - intros u. rewrite (proj1 (IH _)), next_spread_noise. fold c. ring. }
    assert (Hm0 : spread_mean draws h (S n)
                  = spread_mean draws h n + phi h ^ n * c * mean draws noise).
    { unfold spread_mean at 1. rewrite Hmean. ring. }
    split.
    + rewrite Hmean, Hm0. simpl. ring.
    + rewrite Hmean.
      set (A := phi h ^ n * (phi h * s) + spread_mean draws h n).
      set (B := phi h ^ n * c).
      simpl expect.
      rewrite (mean_ext _
        (fun u => (noise_variance draws * (1 - (phi h * phi h) ^ n) + A * A)
                  + (2 * A * B) * noise u
                  + (B * B) * (noise u * noise u))).
      * rewrite mean_quadratic. unfold noise_variance.
        set (mu := mean draws noise).
        set (nu := mean draws (fun u => noise u * noise u)).
        assert (HB : B * B = (phi h * phi h) ^ n * (1 - phi h * phi h)).
        { unfold B. rewrite <- Hcc, Rpow_mult_distr. ring. }
        transitivity ((nu - mu * mu) * (1 - (phi h * phi h) ^ n)
                      + (B * B) * (nu - mu * mu)); [ring|].
        rewrite HB. simpl. ring.
      * intros u.
        destruct (IH (next_spread h u s)) as [IH1 IH2].
        rewrite IH1 in IH2. rewrite next_spread_noise in *. fold c in IH2 |- *.
        unfold A, B. lra.
Qed.

(** The variance after [n] iterations from [spread = 0]. *)
Lemma spread_variance_closed (n : nat) :
  spread_variance draws h n
  = noise_variance draws * (1 - (phi h * phi h) ^ n).
Proof.
  unfold spread_variance, spread_mean.
  apply (proj2 (expect_moments n 0)).
Qed.

(** The long-run variance is the variance of the noise. *)
Lemma spread_variance_limit :
  Un_cv (spread_variance draws h) (noise_variance draws).
Proof.
  destruct (phi_range h_pos) as [H0 H1].
  assert (Hq : Rabs (phi h * phi h) < 1).
  { rewrite Rabs_pos_eq; nra. }
  intros eps Heps.
  destruct (pow_lt_1_zero _ Hq (eps / (Rabs (noise_variance draws) + 1)))
    as [N HN].
  { apply Rdiv_lt_0_compat; [exact Heps|]. pose proof (Rabs_pos (noise_variance draws)). lra. }
  exists N. intros n Hn. rewrite spread_variance_closed.
  unfold Rdist.
  replace (noise_variance draws * (1 - (phi h * phi h) ^ n)
           - noise_variance draws)
    with (- (noise_variance draws * (phi h * phi h) ^ n)) by ring.
  rewrite Rabs_Ropp, Rabs_mult.
  specialize (HN n Hn).
  pose proof (Rabs_pos (noise_variance draws)) as Hv.
  pose proof (Rabs_pos ((phi h * phi h) ^ n)) as Hp.
  set (v := Rabs (noise_variance draws)) in *.
  set (q := Rabs ((phi h * phi h) ^ n)) in *.
  assert (Hq' : q * (v + 1) < eps).
  { apply (Rmult_lt_compat_r (v + 1)) in HN; [|lra].
    unfold Rdiv in HN. rewrite Rmult_assoc, Rinv_l in HN; lra. }
  nra.
Qed.

End ProcessFacts.

Lemma sum_from (a : R) (l : list R) :
  fold_right Rplus a l = fold_right Rplus 0 l + a.
Proof. induction l as [|x l IH]; simpl; [ring|rewrite IH; ring]. Qed.

Lemma sum_seq_S (f : nat -> R) (n : nat) :
  fold_right Rplus 0 (map f (seq 0 (S n)))
  = fold_right Rplus 0 (map f (seq 0 n)) + f n.
Proof.
  rewrite seq_S, map_app, fold_right_app. simpl.
  rewrite sum_from. ring.
Qed.

Lemma noise_affine (u : R) : noise u = 2 * u - 1.
Proof. unfold noise, sigma. lra. Qed.

(** The sums of the noise and of its square over the first [m] values
    of a grid of step [1 / N]. *)
Lemma grid_sums (N : R) (m : nat) :
  N <> 0 ->
  fold_right Rplus 0 (map (fun k => noise (INR k / N)) (seq 0 m))
  = INR m * (INR m - 1) / N - INR m /\
  fold_right Rplus 0
    (map (fun k => noise (INR k / N) * noise (INR k / N)) (seq 0 m))
  = 2 * (INR m - 1) * INR m * (2 * INR m - 1) / (3 * N * N)
    - 2 * INR m * (INR m - 1) / N + INR m.
Proof.
  intros HN. induction m as [|m [IH1 IH2]].
  - simpl. split; field; exact HN.
  - rewrite !sum_seq_S, IH1, IH2, S_INR, !noise_affine.
    split; field; exact HN.
Qed.

(** The variance of the noise when [Math.random()] is uniform over [N]
    equally spaced values. *)
Lemma uniform_noise_variance (N : nat) :
  (0 < N)%nat ->
  noise_variance (uniform_draws N) = (1 - 1 / (INR N * INR N)) / 3.
Proof.
  intros HN. assert (HN' : INR N <> 0) by (apply not_0_INR; lia).
  unfold noise_variance, mean, uniform_draws.
  rewrite !map_map, length_map, length_seq.
  destruct (grid_sums N HN') as [-> ->].
  field. exact HN'.
Qed.

Lemma uniform_draws_nonempty (N : nat) : (0 < N)%nat -> uniform_draws N <> [].
Proof.
  intros HN E. apply (f_equal (@List.length R)) in E.
  unfold uniform_draws in E. rewrite length_map, length_seq in E.
  simpl in E. lia.
Qed.

(** The noise of a draw between 0 (included) and 1 (excluded) lies
    between -1 (included) and 1 (excluded); its squares sum to at most
    their number, and to exactly their number only when every noise
    value is -1. *)
Lemma noise_sums_bound (l : list R) :
  Forall (fun u => 0 <= u < 1) l ->
  fold_right Rplus 0 (map (fun u => noise u * noise u) l) <= INR (List.length l) /\
  (fold_right Rplus 0 (map (fun u => noise u * noise u) l) = INR (List.length l) ->
   fold_right Rplus 0 (map noise l) = - INR (List.length l)).
Proof.
  induction 1 as [|u l Hu _ [IH1 IH2]].
  - simpl. split; [lra|intros _; lra].
  - change (List.length (u :: l)) with (S (List.length l)).
    rewrite S_INR. simpl. rewrite noise_affine in *.
    set (e := 2 * u - 1) in *.
    assert (He : -1 <= e < 1) by (unfold e; lra).
    assert (He2 : e * e <= 1) by nra.
    split; [lra|]. intros E.
    assert (E2 : e * e = 1) by lra.
    assert (E1 : e = -1) by nra.
    rewrite IH2 by lra. lra.
Qed.

(** Whatever the distribution of [Math.random()] over the interval from
    0 to 1, the variance of the noise is below 1. *)
Lemma noise_variance_below_one (draws : list R) :
  draws <> [] ->
  Forall (fun u => 0 <= u < 1) draws ->
  noise_variance draws < 1.
Proof.
  intros Hne Hr. pose proof (draws_count_pos Hne) as Hn.
  destruct (noise_sums_bound Hr) as [H2 H1].
  unfold noise_variance, mean.
  set (s1 := fold_right Rplus 0 (map noise draws)) in *.
  set (s2 := fold_right Rplus 0 (map (fun u => noise u * noise u) draws)) in *.
  set (n := INR (List.length draws)) in *.
  assert (Hq : s2 / n <= 1).
  { apply (Rmult_le_reg_r n); [exact Hn|]. unfold Rdiv.
    rewrite Rmult_assoc, Rinv_l; lra. }
  destruct (Req_dec s1 0) as [E|E].
  - rewrite E. unfold Rdiv at 2 3. rewrite !Rmult_0_l, Rminus_0_r.
    destruct Hq as [Hq|Hq]; [exact Hq|].
    exfalso. assert (Hs : s2 = n).
    { apply (Rmult_eq_reg_r (/ n)); [|apply Rinv_neq_0_compat; lra].
      rewrite Rinv_r by lra. exact Hq. }
    specialize (H1 Hs). lra.
  - assert (Hp : 0 < s1 / n * (s1 / n)).
    { assert (s1 / n <> 0).
      { unfold Rdiv. apply Rmult_integral_contrapositive_currified;
          [exact E|apply Rinv_neq_0_compat; lra]. }
      nra. }
    lra.
Qed.

(** C7 (counterexample). With a half-life of 30 and [Math.random()]
    uniform over a grid of 1000 values, the variance of the spread does
    not tend to 1. *)
Lemma long_run_variance_is_not_one :
  ~ Un_cv (spread_variance (uniform_draws 1000) 30) 1.
Proof.
  intros H1.
  assert (Hpos : (0 < 1000)%nat) by lia.
  assert (Hh : 0 < 30) by lra.
  pose proof (spread_variance_limit (uniform_draws_nonempty Hpos) Hh) as H2.
  pose proof (UL_sequence _ _ _ H1 H2) as E.
  rewrite (uniform_noise_variance Hpos) in E.
  assert (HN : 0 < INR 1000 * INR 1000).
  { apply Rmult_lt_0_compat; apply lt_0_INR; lia. }
  assert (Hinv : 0 < 1 / (INR 1000 * INR 1000)).
  { apply Rdiv_lt_0_compat; lra. }
  lra.
Qed.

(** C7 (amended). For every positive half-life the recursion keeps the
    variance of its noise: after [n] iterations from [spread = 0] the
    variance of the spread is the variance of the noise times
    [1 - phi^(2n)], and in the long run it is the variance of the
    noise.  With [Math.random()] uniform over [N] equally spaced values
    the noise [(Math.random() - 0.5) * 2] has variance
    [(1 - 1/N^2) / 3], one third in the limit of a fine grid; and
    whatever the distribution of [Math.random()] between 0 (included)
    and 1 (excluded), the variance of the noise is below one. *)
Theorem long_run_variance_is_noise_variance :
  forall (draws : list R) (h : R),
    draws <> [] -> 0 < h ->
    (forall n,
       spread_variance draws h n
       = noise_variance draws * (1 - (phi h * phi h) ^ n)) /\
    Un_cv (spread_variance draws h) (noise_variance draws) /\
    (Forall (fun u => 0 <= u < 1) draws -> noise_variance draws < 1) /\
    (forall N, (0 < N)%nat -> draws = uniform_draws N ->
       noise_variance draws = (1 - 1 / (INR N * INR N)) / 3).
Proof.
  intros draws h Hd Hh. split; [|split; [|split]].
  - intros n. apply spread_variance_closed; assumption.
  - apply spread_variance_limit; assumption.
  - apply noise_variance_below_one. exact Hd.
  - intros N HN ->. apply uniform_noise_variance. exact HN.
Qed.

Lemma long_run_variance_is_noise_variance_witness :
  Un_cv (spread_variance (uniform_draws 4) 30) ((1 - 1 / (INR 4 * INR 4)) / 3).
Proof.
  destruct (@long_run_variance_is_noise_variance (uniform_draws 4) 30)
    as (_ & Hlim & _ & Hvar).
  - discriminate.
  - lra.
  - rewrite <- (Hvar 4%nat); [exact Hlim|lia|reflexivity].
Defined.

End SynthFacts.

(* ================================================================== *)
(** ** More facts about the task client *)
(* ================================================================== *)

Module ApiMore.

Import Api Fixtures Samples Reading.

Section Polling.

Variable St : Type.
Variable remote : Remote.
Variable taskId : string.
Variable onUpdate : TaskResult -> St -> St.
Variables intervalMs maxAttempts : Z.

Local Abbreviation loop fuel :=
  (poll_loop remote fuel taskId onUpdate intervalMs maxAttempts).

(** A poll whose transport fails throws the error of the fetch after
    the request has left; the observer is not called. *)
Lemma loop_fetch_error (fuel : nat) (attempts : Z) (w : World St) (e : Error) :
  (attempts < maxAttempts)%Z ->
  results_error (get_results remote taskId (sent w)) = Some e ->
  loop (S fuel) attempts w =
  (Throws e,
   mkWorld (S (sent w)) (log w ++ [EvGetResults taskId]) (caller w)).
Proof.
  intros Hlt He. simpl.
  destruct (Z.ltb_spec attempts maxAttempts); [|lia].
  unfold bind at 1. rewrite ApiFacts.getResults_run.
  unfold results_error in He.
  destruct (get_results remote taskId (sent w)) as [|res].
  - injection He as <-. reflexivity.
  - destruct (ok res); [discriminate|]. injection He as <-. reflexivity.
Qed.

(** What any run of the loop leaves behind. *)
Lemma loop_footprint (fuel : nat) : forall (attempts : Z) (w : World St),
  exists evs,
    log (snd (loop fuel attempts w)) = log w ++ evs /\
    Forall (poll_event taskId intervalMs) evs /\
    sent (snd (loop fuel attempts w))
    = (sent w + List.length (filter is_fetch evs))%nat /\
    (List.length (filter is_fetch evs)
     <= Z.to_nat (maxAttempts - attempts))%nat /\
    (List.length (filter is_update evs)
     <= List.length (filter is_fetch evs))%nat /\
    caller (snd (loop fuel attempts w))
    = observe onUpdate (delivered evs) (caller w).
Proof.
  assert (Hget : poll_event taskId intervalMs (EvGetResults taskId))
    by (left; reflexivity).
  assert (Hupd : forall r, poll_event taskId intervalMs (EvUpdate r))
    by (intros r; right; left; exists r; reflexivity).
  assert (Hslp : poll_event taskId intervalMs (EvSleep intervalMs))
    by (right; right; reflexivity).
  induction fuel as [|fuel IH]; intros attempts w.
  - exists []. simpl. rewrite app_nil_r.
    split; [reflexivity|]. split; [constructor|].
    split; [lia|]. split; [lia|]. split; [lia|reflexivity].
  - remember (loop (S fuel) attempts w) as run eqn:Hrun.
    simpl in Hrun.
    destruct (Z.ltb_spec attempts maxAttempts) as [Hlt|Hge].
    2:{ subst run. exists []. simpl. rewrite app_nil_r.
        split; [reflexivity|]. split; [constructor|].
        split; [lia|]. split; [lia|]. split; [lia|reflexivity]. }
    assert (Hone : forall out,
      exists evs,
        log (snd (out : Outcome TaskResult,
                  mkWorld (S (sent w)) (log w ++ [EvGetResults taskId])
                          (caller w)))
        = log w ++ evs /\
        Forall (poll_event taskId intervalMs) evs /\
        S (sent w) = (sent w + List.length (filter is_fetch evs))%nat /\
        (List.length (filter is_fetch evs)
         <= Z.to_nat (maxAttempts - attempts))%nat /\
        (List.length (filter is_update evs)
         <= List.length (filter is_fetch evs))%nat /\
        caller w = observe onUpdate (delivered evs) (caller w)).
    { intros out. exists [EvGetResults taskId]. simpl.
      split; [reflexivity|]. split; [constructor; [exact Hget|constructor]|].
      split; [lia|]. split; [lia|]. split; [lia|reflexivity]. }
    unfold bind at 1 in Hrun. rewrite ApiFacts.getResults_run in Hrun.
    destruct (get_results remote taskId (sent w)) as [|res]; simpl in Hrun;
      [subst run; apply Hone|].
    destruct (ok res); simpl in Hrun; [|subst run; apply Hone].
    unfold bind, emit, update_caller, sleep, ret in Hrun; simpl in Hrun.
    destruct (is_terminal (status (json res))); simpl in Hrun.
    + subst run. exists [EvGetResults taskId; EvUpdate (json res)]. simpl.
      rewrite <- app_assoc.
      split; [reflexivity|]. split.
      { constructor; [exact Hget|]. constructor; [apply Hupd|constructor]. }
      split; [lia|]. split; [lia|]. split; [lia|reflexivity].
    + match type of Hrun with
      | context [loop fuel ?a ?w1] =>
          destruct (IH a w1) as (evs & Hl & Hev & Hs & Hf & Hu & Hc)
      end.
      subst run.
      exists (EvGetResults taskId :: EvUpdate (json res)
              :: EvSleep intervalMs :: evs).
      rewrite Hl, Hs, Hc. simpl. rewrite <- !app_assoc. simpl.
      split; [reflexivity|]. split.
      { constructor; [exact Hget|]. constructor; [apply Hupd|].
        constructor; [exact Hslp|exact Hev]. }
      split; [lia|]. split; [lia|]. split; [lia|reflexivity].
Qed.

(** [j] pending polls, then a terminal snapshot within the ceiling: the
    loop returns it right after its observer call. *)
Lemma loop_first_terminal (j : nat) :
  forall (fuel : nat) (attempts : Z) (w : World St) (r : TaskResult),
  (j < fuel)%nat ->
  (attempts + Z.of_nat j < maxAttempts)%Z ->
  (forall i, (i < j)%nat -> pending remote taskId (sent w + i)) ->
  served remote taskId (sent w + j) = Some r ->
  is_terminal (status r) = true ->
  fst (loop fuel attempts w) = Returns r /\
  log (snd (loop fuel attempts w)) =
    log w ++ polls_events remote taskId intervalMs (sent w) j
          ++ [EvGetResults taskId; EvUpdate r] /\
  sent (snd (loop fuel attempts w)) = (sent w + j + 1)%nat.
Proof.
  induction j as [|j IH]; intros fuel attempts w r Hf Ha Hp Hs Ht;
    (destruct fuel as [|fuel]; [lia|]).
  - rewrite Nat.add_0_r in Hs.
    rewrite ApiFacts.loop_stop with (r := r); auto; try lia.
    simpl. split; [reflexivity|]. split; [reflexivity|lia].
  - destruct (Hp 0%nat ltac:(lia)) as (r0 & Hs0 & Ht0).
    rewrite Nat.add_0_r in Hs0.
    rewrite ApiFacts.loop_continue with (r := r0); auto; try lia.
    edestruct (IH fuel (attempts + 1)%Z) as (Ho & Hl & Hc);
      [ | | | | | rewrite Ho, Hl, Hc ]; try eassumption; try lia.
    + simpl. intros i Hi.
      replace (S (sent w + i)) with (sent w + S i)%nat by lia.
      apply Hp. lia.
    + simpl. rewrite <- Hs. f_equal. lia.
    + simpl. unfold poll_events at 1. rewrite Hs0.
      rewrite <- !app_assoc. simpl.
      split; [reflexivity|]. split; [reflexivity|lia].
Qed.

(** [j] pending polls, then a poll whose transport fails within the
    ceiling: the loop throws that error right after the request. *)
Lemma loop_first_failure (j : nat) :
  forall (fuel : nat) (attempts : Z) (w : World St) (e : Error),
  (j < fuel)%nat ->
  (attempts + Z.of_nat j < maxAttempts)%Z ->
  (forall i, (i < j)%nat -> pending remote taskId (sent w + i)) ->
  results_error (get_results remote taskId (sent w + j)) = Some e ->
  fst (loop fuel attempts w) = Throws e /\
  log (snd (loop fuel attempts w)) =
    log w ++ polls_events remote taskId intervalMs (sent w) j
          ++ [EvGetResults taskId] /\
  sent (snd (loop fuel attempts w)) = (sent w + j + 1)%nat.
Proof.
  induction j as [|j IH]; intros fuel attempts w e Hf Ha Hp He;
    (destruct fuel as [|fuel]; [lia|]).
  - rewrite Nat.add_0_r in He.
    rewrite loop_fetch_error with (e := e); auto; try lia.
    simpl. split; [reflexivity|]. split; [reflexivity|lia].
  - destruct (Hp 0%nat ltac:(lia)) as (r0 & Hs0 & Ht0).
    rewrite Nat.add_0_r in Hs0.
    rewrite ApiFacts.loop_continue with (r := r0); auto; try lia.
    edestruct (IH fuel (attempts + 1)%Z) as (Ho & Hl & Hc);
      [ | | | | rewrite Ho, Hl, Hc ]; try eassumption; try lia.
    + simpl. intros i Hi.
      replace (S (sent w + i)) with (sent w + S i)%nat by lia.
      apply Hp. lia.
    + simpl. rewrite <- He. do 2 f_equal. lia.
    + simpl. unfold poll_events at 1. rewrite Hs0.
      rewrite <- !app_assoc. simpl.
      split; [reflexivity|]. split; [reflexivity|lia].
Qed.

End Polling.

(** X1. [pollResults] returns as soon as a terminal status is fetched:
    after [j] pending polls and a terminal snapshot on the next one
    (within the ceiling) it returns that snapshot, having made exactly
    [j + 1] fetches, each followed by its observer call in poll order,
    with a wait after each of the first [j] and nothing after the last
    observer call. *)
Theorem pollResults_returns_first_terminal :
  forall (St : Type) (remote : Remote) (taskId : string)
         (onUpdate : TaskResult -> St -> St) (intervalMs maxAttempts : Z)
         (w : World St) (j : nat) (r : TaskResult),
    (Z.of_nat j < maxAttempts)%Z ->
    (forall i, (i < j)%nat -> pending remote taskId (sent w + i)) ->
    served remote taskId (sent w + j) = Some r ->
    is_terminal (status r) = true ->
    let run := pollResults remote taskId onUpdate intervalMs maxAttempts w in
    fst run = Returns r /\
    log (snd run) =
      log w ++ polls_events remote taskId intervalMs (sent w) j
            ++ [EvGetResults taskId; EvUpdate r] /\
    sent (snd run) = (sent w + j + 1)%nat.
Proof.
  intros St remote taskId onUpdate intervalMs maxAttempts w j r
         Hj Hp Hs Ht run.
  subst run. unfold pollResults.
  apply loop_first_terminal; auto; lia.
Qed.

Lemma pollResults_returns_first_terminal_witness :
  let run := pollResults flip_remote "t1"%string ignore 2000 5 world0 in
  fst run = Returns (mkTaskResult "t1" completed [] None) /\
  List.length (filter is_fetch (log (snd run))) = 3%nat /\
  sent (snd run) = 3%nat.
Proof.
  destruct (@pollResults_returns_first_terminal
              unit flip_remote "t1"%string ignore 2000 5 world0 2%nat
              (mkTaskResult "t1" completed [] None))
    as (Ho & Hl & Hs).
  - lia.
  - intros i Hi. destruct i as [|[|i]]; [| |lia];
      eexists; split; reflexivity.
  - reflexivity.
  - reflexivity.
  - cbv zeta. rewrite Hl. split; [exact Ho|]. split; [reflexivity|exact Hs].
Defined.

(** X2. A transport failure is not retried: after [j] pending polls, a
    poll (within the ceiling) whose fetch rejects or gets a non-success
    response makes [pollResults] throw that fetch's error at once; the
    failed poll makes one request, no observer call and no wait. *)
Theorem pollResults_rethrows_fetch_error :
  forall (St : Type) (remote : Remote) (taskId : string)
         (onUpdate : TaskResult -> St -> St) (intervalMs maxAttempts : Z)
         (w : World St) (j : nat) (e : Error),
    (Z.of_nat j < maxAttempts)%Z ->
    (forall i, (i < j)%nat -> pending remote taskId (sent w + i)) ->
    results_error (get_results remote taskId (sent w + j)) = Some e ->
    let run := pollResults remote taskId onUpdate intervalMs maxAttempts w in
    fst run = Throws e /\
    log (snd run) =
      log w ++ polls_events remote taskId intervalMs (sent w) j
            ++ [EvGetResults taskId] /\
    sent (snd run) = (sent w + j + 1)%nat.
Proof.
  intros St remote taskId onUpdate intervalMs maxAttempts w j e
         Hj Hp He run.
  subst run. unfold pollResults.
  apply loop_first_failure; auto; lia.
Qed.

Lemma pollResults_rethrows_fetch_error_witness :
  let run := pollResults flaky_remote "t1"%string ignore 2000 300 world0 in
  fst run = Throws (ResultsFetchFailed "Bad Gateway") /\
  List.length (filter is_update (log (snd run))) = 2%nat /\
  sent (snd run) = 3%nat.
Proof.
  destruct (@pollResults_rethrows_fetch_error
              unit flaky_remote "t1"%string ignore 2000 300 world0 2%nat
              (ResultsFetchFailed "Bad Gateway"))
    as (Ho & Hl & Hs).
  - lia.
  - intros i Hi. destruct i as [|[|i]]; [| |lia];
      eexists; split; reflexivity.
  - reflexivity.
  - cbv zeta. rewrite Hl. split; [exact Ho|]. split; [reflexivity|exact Hs].
Defined.

(** X3. Whatever the service answers, a call of [pollResults] only adds
    to the log, and what it adds are fetches of its own handle,
    observer calls and waits of the given interval; it sends as many
    requests as it logs fetches, at most [maxAttempts] of them (none
    when the ceiling is zero or negative); it calls the observer at
    most once per fetch; and it leaves the caller's state as the
    observer applied to the delivered snapshots in order. *)
Theorem pollResults_footprint :
  forall (St : Type) (remote : Remote) (taskId : string)
         (onUpdate : TaskResult -> St -> St) (intervalMs maxAttempts : Z)
         (w : World St),
    let run := pollResults remote taskId onUpdate intervalMs maxAttempts w in
    exists evs,
      log (snd run) = log w ++ evs /\
      Forall (poll_event taskId intervalMs) evs /\
      sent (snd run) = (sent w + List.length (filter is_fetch evs))%nat /\
      (List.length (filter is_fetch evs) <= Z.to_nat maxAttempts)%nat /\
      (List.length (filter is_update evs)
       <= List.length (filter is_fetch evs))%nat /\
      caller (snd run) = observe onUpdate (delivered evs) (caller w).
Proof.
  intros St remote taskId onUpdate intervalMs maxAttempts w run.
  subst run. unfold pollResults.
  destruct (loop_footprint remote taskId onUpdate intervalMs maxAttempts
              (S (Z.to_nat maxAttempts)) 0%Z w)
    as (evs & Hl & Hev & Hs & Hf & Hu & Hc).
  rewrite Z.sub_0_r in Hf. exists evs. auto 10.
Qed.

End ApiMore.

(* ================================================================== *)
(** ** Facts about the page's scan handler *)
(* ================================================================== *)

Module HomeMore.

Import Api Fixtures Samples Reading.

(** The page's observer only writes the status line. *)
Lemma observe_fields (l : list TaskResult) : forall st : Home.State,
  Home.results (observe Home.onUpdate l st) = Home.results st /\
  Home.isScanning (observe Home.onUpdate l st) = Home.isScanning st /\
  Home.selectedPair (observe Home.onUpdate l st) = Home.selectedPair st /\
  Home.error (observe Home.onUpdate l st) = Home.error st.
Proof.
  induction l as [|r l IH]; intros st; [repeat split|].
  unfold observe in *. simpl.
  destruct (IH (Home.onUpdate r st)) as (H1 & H2 & H3 & H4).
  rewrite H1, H2, H3, H4. unfold Home.onUpdate.
  destruct (status r); repeat split.
Qed.

Section Page.

Variable remote : Remote.
Variable tickers : list string.
Variable period : string.

Local Abbreviation req := (mkScanRequest tickers period None None None).

(** What the one POST does, read off the oracle. *)
Lemma startScan_run (w : World Home.State) :
  startScan remote req w =
  let w' := mkWorld (S (sent w)) (log w ++ [EvPostScan req]) (caller w) in
  match post_scan remote req (sent w) with
  | Rejected => (Throws NetworkError, w')
  | Responded res =>
      if ok res then (Returns (json res), w')
      else (Throws (ScanRequestFailed (statusText res)), w')
  end.
Proof.
  unfold startScan, bind, request.
  destruct (post_scan remote req (sent w)) as [|res]; [reflexivity|].
  destruct (ok res); reflexivity.
Qed.

(** [handleScan], branch by branch. *)
Lemma handleScan_run (w : World Home.State) :
  Home.handleScan remote tickers period w =
  match startScan remote req
          (mkWorld (sent w) (log w) (started (caller w))) with
  | (Returns t, w1) =>
      match pollResults_default remote t Home.onUpdate
              (mkWorld (sent w1) (log w1)
                 (Home.setScanStatus
                    "Scanning pairs — this may take a moment..."
                    (caller w1))) with
      | (Returns r, w2) =>
          (Returns tt,
           mkWorld (sent w2) (log w2)
                   (Home.setIsScanning false (shown r (caller w2))))
      | (Throws e, w2) =>
          (Returns tt, mkWorld (sent w2) (log w2) (caught e (caller w2)))
      | (Stuck, w2) => (Stuck, w2)
      end
  | (Throws e, w1) =>
      (Returns tt, mkWorld (sent w1) (log w1) (caught e (caller w1)))
  | (Stuck, w1) => (Stuck, w1)
  end.
Proof.
  unfold Home.handleScan, try_finally, try_catch, Home.scan_body.
  unfold bind at 1 2 3 4. unfold update_caller at 1 2 3 4. simpl.
  unfold bind at 1. unfold started.
  destruct (startScan remote req _) as [[t|e|] w1]; simpl;
    [|reflexivity|reflexivity].
  unfold bind at 1. unfold update_caller at 1. simpl.
  unfold bind at 1.
  destruct (pollResults_default remote t Home.onUpdate _) as [[r|e|] w2];
    simpl; [|reflexivity|reflexivity].
  unfold shown. destruct (status r); reflexivity.
Qed.

(** What polling with the page's observer can and cannot do. *)
Lemma poll_summary (t : string) (w1 : World Home.State) :
  let run := pollResults_default remote t Home.onUpdate w1 in
  fst run <> Stuck /\
  (forall r, fst run = Returns r -> is_terminal (status r) = true) /\
  exists evs,
    log (snd run) = log w1 ++ evs /\
    Forall (poll_event t 2000) evs /\
    (sent w1 <= sent (snd run) <= sent w1 + 300)%nat /\
    Home.results (caller (snd run)) = Home.results (caller w1) /\
    Home.isScanning (caller (snd run)) = Home.isScanning (caller w1) /\
    Home.selectedPair (caller (snd run)) = Home.selectedPair (caller w1) /\
    Home.error (caller (snd run)) = Home.error (caller w1).
Proof.
  intros run. subst run. unfold pollResults_default, pollResults.
  split; [apply ApiFacts.loop_total; lia|]. split.
  - intros r Hr.
    destruct (poll_loop remote (S (Z.to_nat 300)) t Home.onUpdate 2000 300 0 w1)
      as [out w2] eqn:E.
    simpl in Hr. subst out. apply ApiFacts.loop_returns in E. apply E.
  - destruct (ApiMore.loop_footprint remote t Home.onUpdate 2000 300
                (S (Z.to_nat 300)) 0%Z w1)
      as (evs & Hl & Hev & Hs & Hf & _ & Hc).
    exists evs. split; [exact Hl|]. split; [exact Hev|].
    split; [rewrite Hs; change (Z.to_nat (300 - 0)) with 300%nat in Hf; lia|].
    rewrite Hc. apply observe_fields.
Qed.

End Page.

(** X4. [handleScan] of the page always settles: whatever the service
    does, it returns normally (every error is caught), leaves the
    scanning flag off and the selected pair untouched, and has sent
    between 1 and 301 requests. *)
Theorem handleScan_always_settles :
  forall (remote : Remote) (tickers : list string) (period : string)
         (w : World Home.State),
    let run := Home.handleScan remote tickers period w in
    fst run = Returns tt /\
    Home.isScanning (caller (snd run)) = false /\
    Home.selectedPair (caller (snd run)) = Home.selectedPair (caller w) /\
    (sent w + 1 <= sent (snd run) <= sent w + 301)%nat.
Proof.
  intros remote tickers period w run. subst run.
  rewrite handleScan_run, startScan_run. cbv zeta. cbn [sent log caller].
  destruct (post_scan remote (mkScanRequest tickers period None None None)
                      (sent w)) as [|res]; cbn [sent log caller].
  { simpl. repeat split; lia. }
  destruct (ok res); [|simpl; repeat split; lia].
  match goal with
  | |- context [pollResults_default remote ?t Home.onUpdate ?w1] =>
      destruct (poll_summary remote t w1)
        as (Hstuck & _ & evs & _ & _ & Hs & _ & _ & Hsel & _);
      destruct (pollResults_default remote t Home.onUpdate w1)
        as [[r|e|] w2]
  end; cbn [fst snd sent caller] in *.
  - split; [reflexivity|]. split; [reflexivity|].
    split; [|lia].
    unfold shown. destruct (status r); simpl; exact Hsel.
  - split; [reflexivity|]. split; [reflexivity|].
    split; [exact Hsel|lia].
  - contradiction.
Qed.

(** X5. After [handleScan] an error message and results never show
    together: either the error line is empty, or the result list is
    empty and so is the status line. *)
Theorem handleScan_error_excludes_results :
  forall (remote : Remote) (tickers : list string) (period : string)
         (w : World Home.State),
    let st := caller (snd (Home.handleScan remote tickers period w)) in
    Home.error st = EmptyString \/
    (Home.results st = [] /\ Home.scanStatus st = EmptyString).
Proof.
  intros remote tickers period w st. subst st.
  rewrite handleScan_run, startScan_run. cbv zeta. cbn [sent log caller].
  destruct (post_scan remote (mkScanRequest tickers period None None None)
                      (sent w)) as [|res]; cbn [sent log caller].
  { right. split; reflexivity. }
  destruct (ok res); [|right; split; reflexivity].
  match goal with
  | |- context [pollResults_default remote ?t Home.onUpdate ?w1] =>
      destruct (poll_summary remote t w1)
        as (Hstuck & Hterm & evs & _ & _ & _ & Hres & _ & _ & Herr);
      destruct (pollResults_default remote t Home.onUpdate w1)
        as [[r|e|] w2]
  end; cbn [fst snd sent caller] in *.
  - specialize (Hterm r eq_refl). unfold shown.
    destruct (status r); try discriminate; simpl.
    + left. exact Herr.
    + right. split; [exact Hres|reflexivity].
  - right. split; [exact Hres|reflexivity].
  - contradiction.
Qed.

(** X6. The page polls only the handle the service issued: a run of
    [handleScan] posts the scan once, first, and every later request is
    a status fetch for the task id that the POST returned. *)
Theorem handleScan_polls_the_issued_handle :
  forall (remote : Remote) (tickers : list string) (period : string)
         (w : World Home.State),
    exists evs,
      log (snd (Home.handleScan remote tickers period w))
      = log w ++ EvPostScan (mkScanRequest tickers period None None None)
                 :: evs /\
      Home.posted evs = [] /\
      (forall id, In (EvGetResults id) evs ->
         scan_handle
           (post_scan remote (mkScanRequest tickers period None None None)
                      (sent w))
         = Some id).
Proof.
  intros remote tickers period w.
  rewrite handleScan_run, startScan_run. cbv zeta.
  unfold scan_handle. cbn [sent log caller].
  destruct (post_scan remote (mkScanRequest tickers period None None None)
                      (sent w)) as [|res]; cbn [sent log caller].
  { exists []. simpl. repeat split. intros id []. }
  destruct (ok res).
  2:{ exists []. simpl. repeat split. intros id []. }
  match goal with
  | |- context [pollResults_default remote ?t Home.onUpdate ?w1] =>
      destruct (poll_summary remote t w1)
        as (Hstuck & _ & evs & Hl & Hev & _);
      destruct (pollResults_default remote t Home.onUpdate w1)
        as [[r|e|] w2]
  end; cbn [fst snd sent log caller] in *; try contradiction.
  all: exists evs; rewrite Hl, <- app_assoc; split; [reflexivity|].
  all: split;
    [ clear Hl; induction Hev as [|ev l Hp _ IH]; [reflexivity|];
      destruct Hp as [->|[[r' ->]| ->]]; exact IH
    | intros id Hin; rewrite Forall_forall in Hev;
      destruct (Hev _ Hin) as [E|[[r' E]|E]];
        [injection E as ->; reflexivity|discriminate|discriminate] ].
Qed.

(** [handleScan] once the service has issued the handle [t]. *)
Lemma handleScan_issued (remote : Remote) (tickers : list string)
    (period : string) (w : World Home.State) (t : string) :
  scan_handle
    (post_scan remote (mkScanRequest tickers period None None None) (sent w))
  = Some t ->
  let w1 :=
    mkWorld (S (sent w))
      (log w ++ [EvPostScan (mkScanRequest tickers period None None None)])
      (Home.setScanStatus "Scanning pairs — this may take a moment..."
         (started (caller w))) in
  Home.handleScan remote tickers period w =
  match pollResults_default remote t Home.onUpdate w1 with
  | (Returns r, w2) =>
      (Returns tt,
       mkWorld (sent w2) (log w2)
               (Home.setIsScanning false (shown r (caller w2))))
  | (Throws e, w2) =>
      (Returns tt, mkWorld (sent w2) (log w2) (caught e (caller w2)))
  | (Stuck, w2) => (Stuck, w2)
  end.
Proof.
  intros Ht. rewrite handleScan_run, startScan_run. cbv zeta.
  cbn [sent log caller]. unfold scan_handle in Ht.
  destruct (post_scan remote (mkScanRequest tickers period None None None)
                      (sent w)) as [|res]; [discriminate|].
  destruct (ok res); [|discriminate]. injection Ht as ->. reflexivity.
Qed.

(** X7. When the POST of the scan fails (the fetch rejects or the
    response is not a success) the page makes no status fetch at all:
    it shows the error's message, clears the status line, shows no
    results and turns the scanning flag off. *)
Theorem handleScan_submission_failure :
  forall (remote : Remote) (tickers : list string) (period : string)
         (w : World Home.State) (e : Error),
    scan_error
      (post_scan remote (mkScanRequest tickers period None None None)
                 (sent w))
    = Some e ->
    let w' := snd (Home.handleScan remote tickers period w) in
    log w' = log w ++ [EvPostScan (mkScanRequest tickers period None None None)] /\
    sent w' = S (sent w) /\
    Home.error (caller w') = message e /\
    Home.results (caller w') = [] /\
    Home.scanStatus (caller w') = EmptyString /\
    Home.isScanning (caller w') = false.
Proof.
  intros remote tickers period w e He w'. subst w'.
  rewrite handleScan_run, startScan_run. cbv zeta.
  cbn [sent log caller]. unfold scan_error in He.
  destruct (post_scan remote (mkScanRequest tickers period None None None)
                      (sent w)) as [|res].
  - injection He as <-. simpl. repeat split.
  - destruct (ok res); [discriminate|]. injection He as <-.
    simpl. repeat split.
Qed.

Lemma handleScan_submission_failure_witness :
  Home.error
    (caller (snd (Home.handleScan refusing_remote ["AAPL"; "MSFT"]%string
                                  "1y" home0)))
  = "Scan request failed: Bad Request"%string.
Proof.
  apply (@handleScan_submission_failure
           refusing_remote ["AAPL"; "MSFT"]%string "1y"%string home0
           (ScanRequestFailed "Bad Request")).
  reflexivity.
Defined.

(** X8. When the service issues a handle and, after [j] pending polls
    (fewer than 300), reports the task completed, the page shows that
    Task's results and the matching status line, no error, the
    scanning flag off; it has sent the POST and [j + 1] fetches. *)
Theorem handleScan_shows_completed_results :
  forall (remote : Remote) (tickers : list string) (period : string)
         (w : World Home.State) (t : string) (j : nat) (r : TaskResult),
    scan_handle
      (post_scan remote (mkScanRequest tickers period None None None)
                 (sent w))
    = Some t ->
    (j < 300)%nat ->
    (forall i, (i < j)%nat -> pending remote t (S (sent w) + i)) ->
    served remote t (S (sent w) + j) = Some r ->
    status r = completed ->
    let run := Home.handleScan remote tickers period w in
    fst run = Returns tt /\
    Home.results (caller (snd run)) = results r /\
    Home.scanStatus (caller (snd run))
    = Home.found_message (List.length (results r)) /\
    Home.error (caller (snd run)) = EmptyString /\
    Home.isScanning (caller (snd run)) = false /\
    sent (snd run) = (sent w + j + 2)%nat.
Proof.
  intros remote tickers period w t j r Ht Hj Hp Hs Hst run. subst run.
  rewrite (handleScan_issued remote tickers period w Ht). cbv zeta.
  match goal with
  | |- context [pollResults_default remote t Home.onUpdate ?w1] =>
      destruct (poll_summary remote t w1)
        as (_ & _ & evs & _ & _ & _ & _ & _ & _ & Herr);
      destruct (@ApiMore.loop_first_terminal _ remote t Home.onUpdate
                  2000 300 j (S (Z.to_nat 300)) 0%Z w1 r)
        as (Ho & _ & Hsent);
      [ change (Z.to_nat 300) with 300%nat; lia | lia | exact Hp | exact Hs
      | rewrite Hst; reflexivity | ];
      unfold pollResults_default, pollResults in *;
      destruct (poll_loop remote (S (Z.to_nat 300)) t Home.onUpdate
                          2000 300 0 w1) as [out w2]
  end.
  cbn [fst snd sent log caller] in *. subst out.
  cbn [fst snd sent log caller]. unfold shown. rewrite Hst. simpl.
  repeat split; [exact Herr|lia].
Qed.

Lemma handleScan_shows_completed_results_witness :
  let st := caller (snd (Home.handleScan flip_remote ["AAPL"; "MSFT"]%string
                                         "1y" home0)) in
  Home.results st = [] /\
  Home.scanStatus st = "No pairs met the Z > 2.0 threshold"%string /\
  Home.error st = EmptyString.
Proof.
  destruct (@handleScan_shows_completed_results
              flip_remote ["AAPL"; "MSFT"]%string "1y"%string home0
              "t1"%string 1%nat
              (mkTaskResult "t1" completed [] None))
    as (_ & Hr & Hs & He & _).
  - reflexivity.
  - lia.
  - intros i Hi. destruct i as [|i]; [|lia]. eexists. split; reflexivity.
  - reflexivity.
  - reflexivity.
  - cbv zeta. rewrite Hr, Hs, He. repeat split.
Defined.

(** X9. When the task is reported failed (after [j] pending polls,
    fewer than 300), the page shows the service's error text verbatim
    when it is a non-empty string and "Scan failed unexpectedly"
    otherwise, never an empty error; it shows no results, an empty
    status line and the scanning flag off. *)
Theorem handleScan_shows_remote_failure :
  forall (remote : Remote) (tickers : list string) (period : string)
         (w : World Home.State) (t : string) (j : nat) (r : TaskResult),
    scan_handle
      (post_scan remote (mkScanRequest tickers period None None None)
                 (sent w))
    = Some t ->
    (j < 300)%nat ->
    (forall i, (i < j)%nat -> pending remote t (S (sent w) + i)) ->
    served remote t (S (sent w) + j) = Some r ->
    status r = failed ->
    let st := caller (snd (Home.handleScan remote tickers period w)) in
    Home.error st = Home.error_or_default (error r) /\
    Home.error st <> EmptyString /\
    (forall c msg, error r = Some (String c msg) ->
       Home.error st = String c msg) /\
    (error r = None \/ error r = Some EmptyString ->
       Home.error st = "Scan failed unexpectedly"%string) /\
    Home.results st = [] /\
    Home.scanStatus st = EmptyString /\
    Home.isScanning st = false.
Proof.
  intros remote tickers period w t j r Ht Hj Hp Hs Hst st. subst st.
  rewrite (handleScan_issued remote tickers period w Ht). cbv zeta.
  match goal with
  | |- context [pollResults_default remote t Home.onUpdate ?w1] =>
      destruct (poll_summary remote t w1)
        as (_ & _ & evs & _ & _ & _ & Hres & _ & _ & _);
      destruct (@ApiMore.loop_first_terminal _ remote t Home.onUpdate
                  2000 300 j (S (Z.to_nat 300)) 0%Z w1 r)
        as (Ho & _ & _);
      [ change (Z.to_nat 300) with 300%nat; lia | lia | exact Hp | exact Hs
      | rewrite Hst; reflexivity | ];
      unfold pollResults_default, pollResults in *;
      destruct (poll_loop remote (S (Z.to_nat 300)) t Home.onUpdate
                          2000 300 0 w1) as [out w2]
  end.
  cbn [fst snd sent log caller] in *. subst out.
  cbn [fst snd sent log caller]. unfold shown. rewrite Hst. simpl.
  split; [reflexivity|]. split.
  { destruct (error r) as [[|c m]|]; discriminate. }
  split; [intros c msg ->; reflexivity|].
  split; [intros [->| ->]; reflexivity|].
  split; [exact Hres|]. split; reflexivity.
Qed.

Lemma handleScan_shows_remote_failure_witness :
  Home.error
    (caller (snd (Home.handleScan failing_remote ["AAPL"; "MSFT"]%string
                                  "1y" home0)))
  = "no data"%string.
Proof.
  destruct (@handleScan_shows_remote_failure
              failing_remote ["AAPL"; "MSFT"]%string "1y"%string home0
              "t1"%string 1%nat
              (mkTaskResult "t1" failed [] (Some "no data"%string)))
    as (_ & _ & Hmsg & _).
  - reflexivity.
  - lia.
  - intros i Hi. destruct i as [|i]; [|lia]. eexists. split; reflexivity.
  - reflexivity.
  - reflexivity.
  - apply (Hmsg "n"%char "o data"%string). reflexivity.
Defined.

(** X10. When the service issues a handle and all 300 polls of the
    default ceiling fetch a status that is not terminal, the page shows
    the error "Polling timed out", no results, an empty status line and
    the scanning flag off, after 301 requests. *)
Theorem handleScan_shows_timeout :
  forall (remote : Remote) (tickers : list string) (period : string)
         (w : World Home.State) (t : string),
    scan_handle
      (post_scan remote (mkScanRequest tickers period None None None)
                 (sent w))
    = Some t ->
    (forall i, (i < 300)%nat -> pending remote t (S (sent w) + i)) ->
    let run := Home.handleScan remote tickers period w in
    fst run = Returns tt /\
    Home.error (caller (snd run)) = "Polling timed out"%string /\
    Home.results (caller (snd run)) = [] /\
    Home.scanStatus (caller (snd run)) = EmptyString /\
    Home.isScanning (caller (snd run)) = false /\
    sent (snd run) = (sent w + 301)%nat.
Proof.
  intros remote tickers period w t Ht Hp run. subst run.
  rewrite (handleScan_issued remote tickers period w Ht). cbv zeta.
  match goal with
  | |- context [pollResults_default remote t Home.onUpdate ?w1] =>
      destruct (poll_summary remote t w1)
        as (_ & _ & evs & _ & _ & _ & Hres & _ & _ & _);
      destruct (@ApiFacts.loop_times_out _ remote t Home.onUpdate
                  2000 300 300 (S (Z.to_nat 300)) 0%Z w1)
        as (Ho & _ & Hsent);
      [ reflexivity | change (Z.to_nat 300) with 300%nat; lia | exact Hp | ];
      unfold pollResults_default, pollResults in *;
      destruct (poll_loop remote (S (Z.to_nat 300)) t Home.onUpdate
                          2000 300 0 w1) as [out w2]
  end.
  cbn [fst snd sent log caller] in *. subst out.
  cbn [fst snd sent log caller]. simpl.
  repeat split; [exact Hres|lia].
Qed.

Lemma handleScan_shows_timeout_witness :
  Home.error
    (caller (snd (Home.handleScan busy_remote ["AAPL"; "MSFT"]%string
                                  "1y" home0)))
  = "Polling timed out"%string.
Proof.
  apply (@handleScan_shows_timeout
           busy_remote ["AAPL"; "MSFT"]%string "1y"%string home0 "t1"%string).
  - reflexivity.
  - intros i _. eexists. split; reflexivity.
Defined.

End HomeMore.

(* ================================================================== *)
(** ** More facts about the scan form *)
(* ================================================================== *)

Module FormMore.

Import Api Fixtures Samples.

Lemma upper_char_separator (c : ascii) :
  Form.is_separator (Form.upper_char c) = Form.is_separator c.
Proof. destruct c as [[] [] [] [] [] [] [] []]; reflexivity. Qed.

Lemma upper_char_space (c : ascii) :
  Form.is_space (Form.upper_char c) = Form.is_space c.
Proof. destruct c as [[] [] [] [] [] [] [] []]; reflexivity. Qed.

Lemma space_is_separator (c : ascii) :
  Form.is_separator c = false -> Form.is_space c = false.
Proof. destruct c as [[] [] [] [] [] [] [] []]; simpl; congruence. Qed.

Lemma toUpperCase_app (s t : string) :
  Form.toUpperCase (s ++ t) = (Form.toUpperCase s ++ Form.toUpperCase t)%string.
Proof. induction s as [|c s IH]; simpl; [|rewrite IH]; reflexivity. Qed.

Lemma chars_app (s t : string) :
  Preset.chars (s ++ t) = Preset.chars s ++ Preset.chars t.
Proof. induction s as [|c s IH]; simpl; [|rewrite IH]; reflexivity. Qed.

Lemma chars_upper (s : string) :
  Preset.chars (Form.toUpperCase s) = map Form.upper_char (Preset.chars s).
Proof. induction s as [|c s IH]; simpl; [|rewrite IH]; reflexivity. Qed.

(** The split commutes with putting the text in upper case. *)
Lemma split_from_upper (s : string) : forall (cur : string) (in_sep : bool),
  Form.split_from (Form.toUpperCase s) (Form.toUpperCase cur) in_sep
  = map Form.toUpperCase (Form.split_from s cur in_sep).
Proof.
  induction s as [|c s IH]; intros cur in_sep; simpl; [reflexivity|].
  rewrite upper_char_separator.
  destruct (Form.is_separator c).
  - destruct in_sep; simpl; rewrite <- (IH EmptyString true); reflexivity.
  - rewrite <- IH, toUpperCase_app. reflexivity.
Qed.

Lemma trimStart_upper (s : string) :
  Form.trimStart (Form.toUpperCase s) = Form.toUpperCase (Form.trimStart s).
Proof.
  induction s as [|c s IH]; simpl; [reflexivity|].
  rewrite upper_char_space. destruct (Form.is_space c); [exact IH|reflexivity].
Qed.

Lemma trimEnd_upper (s : string) :
  Form.trimEnd (Form.toUpperCase s) = Form.toUpperCase (Form.trimEnd s).
Proof.
  induction s as [|c s IH]; simpl; [reflexivity|].
  rewrite IH, upper_char_space.
  destruct (Form.trimEnd s); simpl; [|reflexivity].
  destruct (Form.is_space c); reflexivity.
Qed.

Lemma trim_upper (s : string) :
  Form.trim (Form.toUpperCase s) = Form.toUpperCase (Form.trim s).
Proof. unfold Form.trim. rewrite trimStart_upper, trimEnd_upper. reflexivity. Qed.

(** The pieces of a split hold no separator. *)
Lemma split_from_clean (s : string) : forall (cur : string) (in_sep : bool),
  Forall (fun c => Form.is_separator c = false) (Preset.chars cur) ->
  Forall (fun t => Forall (fun c => Form.is_separator c = false)
                          (Preset.chars t))
         (Form.split_from s cur in_sep).
Proof.
  induction s as [|c s IH]; intros cur in_sep Hcur; simpl.
  - constructor; [exact Hcur|constructor].
  - destruct (Form.is_separator c) eqn:Hc.
    + destruct in_sep; [apply IH; constructor|].
      constructor; [exact Hcur|apply IH; constructor].
    + apply IH. rewrite chars_app. apply Forall_app. split; [exact Hcur|].
      simpl. constructor; [exact Hc|constructor].
Qed.

(** A string without spaces is its own trim. *)
Lemma trimEnd_no_space (s : string) :
  Forall (fun c => Form.is_space c = false) (Preset.chars s) ->
  Form.trimEnd s = s.
Proof.
  induction s as [|c s IH]; intros H; [reflexivity|].
  simpl in H. inversion H as [|x l Hc Hs]; subst.
  simpl. rewrite (IH Hs), Hc. destruct s; reflexivity.
Qed.

Lemma trim_no_space (s : string) :
  Forall (fun c => Form.is_space c = false) (Preset.chars s) ->
  Form.trim s = s.
Proof.
  intros H. unfold Form.trim.
  assert (E : Form.trimStart s = s).
  { destruct s as [|c s]; [reflexivity|]. simpl in *.
    inversion H as [|x l Hc _]; subst. rewrite Hc. reflexivity. }
  rewrite E. apply trimEnd_no_space. exact H.
Qed.

Lemma clean_no_space (t : string) :
  Forall (fun c => Form.is_separator c = false) (Preset.chars t) ->
  Forall (fun c => Form.is_space c = false) (Preset.chars t).
Proof.
  intros H. eapply Forall_impl; [|exact H].
  intros c. apply space_is_separator.
Qed.

(** The trim in [handleScan] changes nothing: the tickers are the
    non-empty pieces of the split, in upper case. *)
Lemma parse_tickers_pieces (input : string) :
  Form.parse_tickers input
  = filter Form.truthy (map Form.toUpperCase (Form.split input)).
Proof.
  unfold Form.parse_tickers. f_equal. apply map_ext_in.
  intros t Ht. f_equal. apply trim_no_space, clean_no_space.
  pose proof (split_from_clean input EmptyString false (Forall_nil _)) as H.
  rewrite Forall_forall in H. apply H. exact Ht.
Qed.

Lemma truthy_upper (t : string) :
  Form.truthy (Form.toUpperCase t) = Form.truthy t.
Proof. destruct t; reflexivity. Qed.

Lemma filter_truthy_upper (l : list string) :
  filter Form.truthy (map Form.toUpperCase l)
  = map Form.toUpperCase (filter Form.truthy l).
Proof.
  induction l as [|t l IH]; [reflexivity|].
  simpl. rewrite truthy_upper. destruct (Form.truthy t); simpl; rewrite IH;
    reflexivity.
Qed.

(** After a separator the split starts afresh: whether a separator came
    just before does not change the non-empty pieces. *)
Lemma split_from_flag (s : string) :
  filter Form.truthy (Form.split_from s EmptyString true)
  = filter Form.truthy (Form.split_from s EmptyString false).
Proof.
  destruct s as [|c s]; [reflexivity|].
  simpl. destruct (Form.is_separator c); reflexivity.
Qed.

(** The non-empty pieces of a text, a separator and more text are those
    of the text followed by those of the rest. *)
Lemma split_from_app_sep (a : string) :
  forall (cur : string) (in_sep : bool) (c : ascii) (b : string),
  Form.is_separator c = true ->
  (in_sep = true -> cur = EmptyString) ->
  filter Form.truthy (Form.split_from (a ++ String c b) cur in_sep)
  = filter Form.truthy (Form.split_from a cur in_sep)
    ++ filter Form.truthy (Form.split_from b EmptyString false).
Proof.
  induction a as [|x a IH]; intros cur in_sep c b Hc Hcur.
  - simpl. rewrite Hc, <- split_from_flag.
    destruct in_sep; [rewrite (Hcur eq_refl)|]; simpl;
      destruct (Form.truthy cur); reflexivity.
  - simpl. destruct (Form.is_separator x).
    + destruct in_sep; simpl.
      * apply IH; auto.
      * rewrite (IH EmptyString true c b Hc) by auto.
        destruct (Form.truthy cur); reflexivity.
    + apply IH; [exact Hc|discriminate].
Qed.

(** A non-empty piece without separators is split into itself. *)
Lemma split_from_token (t : string) : forall (cur : string) (in_sep : bool),
  Forall (fun c => Form.is_separator c = false) (Preset.chars t) ->
  Form.split_from t cur in_sep = [(cur ++ t)%string].
Proof.
  induction t as [|c t IH]; intros cur in_sep H; simpl.
  - assert (E : (cur ++ "")%string = cur).
    { clear. induction cur as [|x cur IH]; simpl; [|rewrite IH]; reflexivity. }
    rewrite E. reflexivity.
  - simpl in H. inversion H as [|x l Hc Ht]; subst. rewrite Hc.
    rewrite (IH (cur ++ String c EmptyString)%string false Ht). f_equal.
    clear. induction cur as [|x cur IH]; simpl; [|rewrite IH]; reflexivity.
Qed.

Lemma parse_tickers_token (t : string) :
  t <> EmptyString ->
  Forall (fun c => Form.is_separator c = false) (Preset.chars t) ->
  Form.parse_tickers t = [Form.toUpperCase t].
Proof.
  intros Hne H. rewrite parse_tickers_pieces. unfold Form.split.
  rewrite (@split_from_token t EmptyString false H). simpl.
  rewrite truthy_upper. destruct t; [contradiction|reflexivity].
Qed.

Lemma parse_tickers_app_sep (a b : string) (c : ascii) :
  Form.is_separator c = true ->
  Form.parse_tickers (a ++ String c b)
  = Form.parse_tickers a ++ Form.parse_tickers b.
Proof.
  intros Hc. rewrite !parse_tickers_pieces, !filter_truthy_upper.
  unfold Form.split.
  rewrite (@split_from_app_sep a EmptyString false c b Hc) by discriminate.
  apply map_app.
Qed.

(** Joining clean tickers with ", " and parsing the text gives them
    back, in upper case. *)
Lemma parse_tickers_join (ts : list string) :
  Forall (fun t => t <> EmptyString /\
                   Forall (fun c => Form.is_separator c = false)
                          (Preset.chars t)) ts ->
  Form.parse_tickers (Preset.join ", " ts) = map Form.toUpperCase ts.
Proof.
  induction 1 as [|t ts [Hne Hcl] Hts IH]; [reflexivity|].
  destruct ts as [|t' ts].
  - simpl. apply parse_tickers_token; assumption.
  - change (Preset.join ", " (t :: t' :: ts))
      with (t ++ String "," (String " " (Preset.join ", " (t' :: ts))))%string.
    rewrite parse_tickers_app_sep by reflexivity.
    rewrite (@parse_tickers_token t Hne Hcl).
    change (String " " (Preset.join ", " (t' :: ts)))
      with (EmptyString ++ String " " (Preset.join ", " (t' :: ts)))%string.
    rewrite parse_tickers_app_sep by reflexivity.
    rewrite IH. reflexivity.
Qed.

(** X11. The tickers the form builds hold no comma and no white space,
    and the [trim] in [handleScan] never changes a piece: the tickers
    are exactly the non-empty pieces of the split, in upper case. *)
Theorem parse_tickers_are_clean_tokens :
  forall input : string,
    Form.parse_tickers input
    = filter Form.truthy (map Form.toUpperCase (Form.split input)) /\
    Forall (fun t => Forall (fun c => Form.is_separator c = false)
                            (Preset.chars t))
           (Form.parse_tickers input).
Proof.
  intros input. split; [apply parse_tickers_pieces|].
  rewrite parse_tickers_pieces. apply Forall_forall. intros t Ht.
  apply filter_In in Ht. destruct Ht as [Ht _].
  apply in_map_iff in Ht. destruct Ht as (p & <- & Hp).
  pose proof (split_from_clean input EmptyString false (Forall_nil _)) as H.
  rewrite Forall_forall in H. specialize (H p Hp).
  rewrite chars_upper. apply Forall_forall. intros c Hc.
  apply in_map_iff in Hc. destruct Hc as (x & <- & Hx).
  rewrite upper_char_separator.
  rewrite Forall_forall in H. apply H. exact Hx.
Qed.

(** X12. The form does not look at the case of the text: the same text
    in upper case gives the same call to [onScan]. *)
Theorem handleScan_ignores_case :
  forall (input period startDate endDate : string),
    Form.parse_tickers (Form.toUpperCase input) = Form.parse_tickers input /\
    Form.handleScan
      (Form.mkState (Form.toUpperCase input) period startDate endDate)
    = Form.handleScan (Form.mkState input period startDate endDate).
Proof.
  intros input period startDate endDate.
  assert (E : Form.parse_tickers (Form.toUpperCase input)
              = Form.parse_tickers input).
  { unfold Form.parse_tickers, Form.split.
    change EmptyString with (Form.toUpperCase EmptyString) at 1.
    rewrite split_from_upper, map_map. f_equal. apply map_ext.
    intros t. rewrite trim_upper. apply ScanFacts.toUpperCase_idempotent. }
  split; [exact E|].
  unfold Form.handleScan. simpl. rewrite E. reflexivity.
Qed.

(** X13. Text, a separator (a comma or a white-space character) and
    more text: the tickers are those of the first text followed by
    those of the second. *)
Theorem parse_tickers_concatenates :
  forall (a b : string) (c : ascii),
    Form.is_separator c = true ->
    Form.parse_tickers (a ++ String c b)
    = Form.parse_tickers a ++ Form.parse_tickers b /\
    List.length (Form.parse_tickers (a ++ String c b))
    = (List.length (Form.parse_tickers a)
       + List.length (Form.parse_tickers b))%nat.
Proof.
  intros a b c Hc. rewrite (@parse_tickers_app_sep a b c Hc).
  split; [reflexivity|apply length_app].
Qed.

Lemma parse_tickers_concatenates_witness :
  Form.parse_tickers "aapl msft,goog"
  = Form.parse_tickers "aapl msft" ++ Form.parse_tickers "goog".
Proof.
  apply (proj1 (@parse_tickers_concatenates "aapl msft" "goog" ","%char
                  eq_refl)).
Defined.

(** X14. Choosing a preset and running the scan round-trips the
    preset's tickers: for a known preset whose tickers are non-empty
    and hold no comma or white space, [handlePreset] marks it active
    and fills the text area so that the form parses the preset's
    tickers back, in upper case and in order; with at least two of
    them [handleScan] calls [onScan] with that list and the chosen
    period. *)
Theorem preset_tickers_round_trip :
  forall (key : string) (st : Preset.State) (ts : list string),
    Preset.lookup (Preset.presets st) key = Some ts ->
    Forall (fun t => t <> EmptyString /\
                     Forall (fun c => Form.is_separator c = false)
                            (Preset.chars t)) ts ->
    let st' := Preset.handlePreset key st in
    Preset.activePreset st' = Some key /\
    Form.parse_tickers (Form.tickerInput (Preset.form st'))
    = map Form.toUpperCase ts /\
    ((2 <= List.length ts)%nat ->
     exists call,
       Form.handleScan (Preset.form st') = Some call /\
       Form.arg_tickers call = map Form.toUpperCase ts /\
       Form.arg_period call = Form.period (Preset.form st)) /\
    ((List.length ts < 2)%nat -> Form.handleScan (Preset.form st') = None).
Proof.
  intros key st ts Hk Hts st'. subst st'.
  unfold Preset.handlePreset, Preset.setTickerInput. rewrite Hk.
  cbn [Preset.form Preset.activePreset Form.tickerInput].
  pose proof (@parse_tickers_join ts Hts) as E.
  split; [reflexivity|]. split; [exact E|].
  unfold Form.handleScan. cbv zeta.
  cbn [Form.tickerInput Form.period Form.startDate Form.endDate].
  rewrite E, length_map. split.
  - intros Hlen. destruct (Nat.leb_spec 2 (List.length ts)); [|lia].
    destruct (String.eqb (Form.period (Preset.form st)) "custom");
      eexists; (split; [reflexivity|split; reflexivity]).
  - intros Hlen. destruct (Nat.leb_spec 2 (List.length ts)); [lia|].
    reflexivity.
Qed.

Lemma preset_tickers_round_trip_witness :
  Form.parse_tickers
    (Form.tickerInput
       (Preset.form (Preset.handlePreset "mega_tech" preset_state)))
  = ["AAPL"; "MSFT"; "GOOGL"]%string.
Proof.
  apply (proj1 (proj2 (@preset_tickers_round_trip
                         "mega_tech" preset_state
                         ["AAPL"; "MSFT"; "GOOGL"]%string eq_refl
                         ltac:(repeat constructor; discriminate)))).
Defined.

End FormMore.

(* ================================================================== *)
(** ** Facts about the preset names *)
(* ================================================================== *)

Module PresetFacts.

Import Api Fixtures Samples.


Lemma split_on_nonempty (sep : ascii) (s : string) :
  Preset.split_on sep s <> [].
Proof.
  destruct s as [|c s]; simpl; [discriminate|].
  destruct (Ascii.eqb c sep); [discriminate|].
  destruct (Preset.split_on sep s); discriminate.
Qed.









End PresetFacts.

(* ================================================================== *)
(** ** Facts about the results table *)
(* ================================================================== *)

Module TableFacts.

Import Api Fixtures Samples.
Local Open Scope R_scope.

Lemma key_eqb_eq (a b : Table.SortKey) :
  Table.key_eqb a b = true <-> a = b.
Proof.
  split.
  - destruct a as [[]|[]], b as [[]|[]]; simpl; congruence.
  - intros <-. destruct a as [[]|[]]; reflexivity.
Qed.

Section Sorting.

Variable cmp : PairResult -> PairResult -> R.

Lemma insert_perm (x : PairResult) (l : list PairResult) :
  Permutation (Table.insert cmp x l) (x :: l).
Proof.
  induction l as [|y l IH]; simpl; [apply Permutation_refl|].
  destruct (Rle_dec (cmp x y) 0); [apply Permutation_refl|].
  apply perm_trans with (y :: x :: l); [|apply perm_swap].
  apply perm_skip. exact IH.
Qed.

Lemma sort_perm (l : list PairResult) : Permutation (Table.sort cmp l) l.
Proof.
  induction l as [|x l IH]; simpl; [apply perm_nil|].
  apply perm_trans with (x :: Table.sort cmp l);
    [apply insert_perm|apply perm_skip; exact IH].
Qed.

(** The order a comparator sorts into: [a] may stand before [b]. *)
Variable before : PairResult -> PairResult -> Prop.
Hypothesis before_cmp : forall a b, cmp a b <= 0 -> before a b.
Hypothesis before_flip : forall a b, ~ cmp a b <= 0 -> before b a.
Hypothesis before_trans : forall a b c, before a b -> before b c -> before a c.

Lemma insert_sorted (x : PairResult) (l : list PairResult) :
  StronglySorted before l -> StronglySorted before (Table.insert cmp x l).
Proof.
  induction 1 as [|y l Hl IH Hy]; simpl.
  - constructor; constructor.
  - destruct (Rle_dec (cmp x y) 0) as [Hle|Hgt].
    + constructor; [constructor; assumption|].
      constructor; [apply before_cmp; exact Hle|].
      eapply Forall_impl; [|exact Hy].
      intros z Hz. eapply before_trans; [apply before_cmp; exact Hle|exact Hz].
    + constructor; [exact IH|].
      assert (Hin : forall z, In z (Table.insert cmp x l) -> before y z).
      { intros z Hz.
        apply (Permutation_in _ (insert_perm x l)) in Hz.
        destruct Hz as [<-|Hz]; [apply before_flip; exact Hgt|].
        rewrite Forall_forall in Hy. apply Hy. exact Hz. }
      apply Forall_forall. exact Hin.
Qed.

Lemma sort_sorted (l : list PairResult) :
  StronglySorted before (Table.sort cmp l).
Proof.
  induction l as [|x l IH]; simpl; [constructor|].
  apply insert_sorted. exact IH.
Qed.

End Sorting.

(** X16. Sorting by a column: a click on a header makes it the sorted
    column; on the column already sorted it reverses the direction, on
    another column it sorts descending; and a third click in a row
    leaves the table as the first one did. *)
Theorem handleSort_cycle :
  forall (key : Table.SortKey) (st : Table.State),
    Table.sortKey (Table.handleSort key st) = key /\
    (Table.sortKey st = key ->
     Table.sortAsc (Table.handleSort key st) = negb (Table.sortAsc st)) /\
    (Table.sortKey st <> key ->
     Table.sortAsc (Table.handleSort key st) = false) /\
    Table.handleSort key (Table.handleSort key (Table.handleSort key st))
    = Table.handleSort key st.
Proof.
  intros key st. unfold Table.handleSort.
  destruct (Table.key_eqb (Table.sortKey st) key) eqn:E.
  - apply key_eqb_eq in E. simpl. rewrite E.
    rewrite (proj2 (key_eqb_eq key key) eq_refl). simpl.
    rewrite (proj2 (key_eqb_eq key key) eq_refl). simpl.
    rewrite negb_involutive.
    repeat split; auto. intros H. contradiction.
  - simpl. rewrite (proj2 (key_eqb_eq key key) eq_refl). simpl.
    rewrite (proj2 (key_eqb_eq key key) eq_refl). simpl.
    repeat split; auto.
    intros H. apply (proj2 (key_eqb_eq _ _)) in H. congruence.
Qed.

Lemma handleSort_cycle_witness :
  Table.handleSort (Table.OfNum Table.k_hurst) Table.initial
  = Table.mkState (Table.OfNum Table.k_hurst) false /\
  Table.handleSort (Table.OfNum Table.k_prob_profit) Table.initial
  = Table.mkState (Table.OfNum Table.k_prob_profit) true.
Proof.
  destruct (handleSort_cycle (Table.OfNum Table.k_hurst) Table.initial)
    as (Hk & _ & Hother & _).
  destruct (handleSort_cycle (Table.OfNum Table.k_prob_profit) Table.initial)
    as (Hk' & Hsame & _ & _).
  split.
  - destruct (Table.handleSort (Table.OfNum Table.k_hurst) Table.initial)
      as [k a].
    simpl in Hk, Hother. rewrite Hk, Hother; [reflexivity|discriminate].
  - destruct (Table.handleSort (Table.OfNum Table.k_prob_profit)
                Table.initial) as [k a].
    simpl in Hk', Hsame. rewrite Hk', Hsame; reflexivity.
Defined.

(** X17. The table shows every result exactly once: for every sort
    column, direction and collation the sorted rows are a permutation
    of the results; the table body is rendered exactly when the page is
    not loading and there is at least one result. *)
Theorem sorted_rows_are_the_results :
  forall (localeCompare : string -> string -> R) (st : Table.State)
         (results : list PairResult) (isLoading : bool),
    Permutation (Table.sorted localeCompare st results) results /\
    List.length (Table.sorted localeCompare st results)
    = List.length results /\
    (Table.render localeCompare st results isLoading
     = Table.Rows (Table.sorted localeCompare st results)
     <-> isLoading = false /\ results <> []).
Proof.
  intros localeCompare st results isLoading.
  pose proof (sort_perm (Table.compare localeCompare st) results) as Hp.
  split; [exact Hp|]. split; [apply Permutation_length; exact Hp|].
  unfold Table.render. destruct isLoading.
  - split; [discriminate|intros [H _]; discriminate].
  - destruct results as [|r rs].
    + split; [discriminate|intros [_ H]; contradiction].
    + split; [intros _; split; [reflexivity|discriminate]|reflexivity].
Qed.

(** X18. On a number column the rows come in order: descending (the
    direction of a first click, and of the initial sort by
    [prob_profit]) every row's value is at least that of every row
    below it; ascending, at most. *)
Theorem sorted_rows_are_ordered :
  forall (localeCompare : string -> string -> R) (k : Table.NumKey)
         (asc : bool) (results : list PairResult),
    let rows :=
      Table.sorted localeCompare (Table.mkState (Table.OfNum k) asc) results in
    if asc
    then StronglySorted
           (fun a b => Table.num_field k a <= Table.num_field k b) rows
    else StronglySorted
           (fun a b => Table.num_field k b <= Table.num_field k a) rows.
Proof.
  intros localeCompare k asc results rows. subst rows.
  unfold Table.sorted. destruct asc.
  - apply sort_sorted; unfold Table.compare; simpl; intros; lra.
  - apply sort_sorted; unfold Table.compare; simpl; intros; lra.
Qed.

End TableFacts.

(* ================================================================== *)
(** ** Facts about the signal line *)
(* ================================================================== *)

Module ModalFacts.

Import Api Fixtures Samples.

(** A text without the separator is one piece. *)
Lemma split_on_plain (sep : ascii) (s : string) :
  Forall (fun c => Ascii.eqb c sep = false) (Preset.chars s) ->
  Preset.split_on sep s = [s].
Proof.
  induction s as [|c s IH]; intros H; [reflexivity|].
  simpl in H. inversion H as [|x l Hc Hs]; subst.
  simpl. rewrite Hc, (IH Hs). reflexivity.
Qed.

(** The first piece of a split ends at the first separator. *)
Lemma split_on_app (sep : ascii) (a b : string) :
  Forall (fun c => Ascii.eqb c sep = false) (Preset.chars a) ->
  Preset.split_on sep (a ++ String sep b) = a :: Preset.split_on sep b.
Proof.
  induction a as [|c a IH]; intros H.
  - simpl. rewrite Ascii.eqb_refl. reflexivity.
  - simpl in H. inversion H as [|x l Hc Ha]; subst.
    simpl. rewrite Hc, (IH Ha). reflexivity.
Qed.

(** X19. The signal line always names a first leg and gives the two
    legs opposite actions; for a pair labelled "A/B" it reads
    "Sell A — Buy B" when the z-score is positive and
    "Buy A — Sell B" otherwise. *)
Theorem signal_legs_and_actions :
  forall p : PairResult,
    Modal.first_leg (Modal.signal p) <> None /\
    Modal.first_action (Modal.signal p)
    <> Modal.second_action (Modal.signal p) /\
    (forall a b : string,
       pair p = (a ++ String "/" b)%string ->
       Forall (fun c => Ascii.eqb c "/" = false) (Preset.chars a) ->
       Forall (fun c => Ascii.eqb c "/" = false) (Preset.chars b) ->
       ((0 < z_score p)%R ->
        Modal.signal p = Modal.mkSignal "Sell" (Some a) "Buy" (Some b)) /\
       ((z_score p <= 0)%R ->
        Modal.signal p = Modal.mkSignal "Buy" (Some a) "Sell" (Some b))).
Proof.
  intros p. unfold Modal.signal. split; [|split].
  - pose proof (PresetFacts.split_on_nonempty "/" (pair p)) as Hne.
    destruct (Preset.split_on "/" (pair p)); [contradiction|].
    destruct (Rlt_dec 0 (z_score p)); discriminate.
  - destruct (Rlt_dec 0 (z_score p)); discriminate.
  - intros a b E Ha Hb.
    rewrite E, (@split_on_app "/" a b Ha), (@split_on_plain "/" b Hb).
    split; intros Hz; destruct (Rlt_dec 0 (z_score p)); try reflexivity; lra.
Qed.

Lemma signal_legs_and_actions_witness :
  Modal.signal
    (mkPairResult "AAPL/MSFT" "" "" 0 2.5 30 0 0 0 0 0 0 0 "" "" "" "" 0 [])
  = Modal.mkSignal "Sell" (Some "AAPL"%string) "Buy" (Some "MSFT"%string).
Proof.
  apply (proj2 (proj2 (signal_legs_and_actions
    (mkPairResult "AAPL/MSFT" "" "" 0 2.5 30 0 0 0 0 0 0 0 "" "" "" "" 0 [])))
    "AAPL"%string "MSFT"%string eq_refl).
  - repeat constructor.
  - repeat constructor.
  - simpl. lra.
Defined.

End ModalFacts.

(* ================================================================== *)
(** ** More facts about the synthetic spread *)
(* ================================================================== *)

Module SynthMore.

Import Api Synth SynthFacts.
Local Open Scope R_scope.

Section Loop.

Variable now : Z.
Variable rand : nat -> R.
Variable h : R.

(** What the loop keeps true of the path: every point pushed so far
    and the current spread satisfy [inv], as long as one step keeps it;
    and the points are pushed at the days of their indices. *)
Lemma loop_path (inv : R -> Prop) (l : list nat) :
  (forall i spread, In i l -> inv spread ->
     inv (next_spread h (rand i) spread)) ->
  forall st : R * Series,
    inv (fst st) ->
    Forall (fun p => inv (value p)) (data (snd st)) ->
    let st' := fold_left (loop_body now rand h) l st in
    inv (fst st') /\
    Forall (fun p => inv (value p)) (data (snd st')) /\
    map time (data (snd st'))
    = map time (data (snd st)) ++ map (day_of now) l.
Proof.
  induction l as [|i l IH]; intros Hstep [spread s] Hs Hd; simpl.
  - rewrite app_nil_r. auto.
  - simpl in Hs, Hd.
    destruct (IH (fun j sp Hj => Hstep j sp (or_intror Hj))
                 (loop_body now rand h (spread, s) i))
      as (H1 & H2 & H3).
    + simpl. apply Hstep; [left; reflexivity|exact Hs].
    + simpl. apply Forall_app. split; [exact Hd|].
      constructor; [|constructor]. simpl.
      apply Hstep; [left; reflexivity|exact Hs].
    + simpl in H3. rewrite map_app, <- app_assoc in H3. auto.
Qed.

End Loop.

(** The series returned, with what the loop keeps true of its
    interior: the points before the anchor satisfy [inv] and carry the
    days of their indices; the other three arrays are constant. *)
Lemma synthesize_path (inv : R -> Prop) (now : Z) (rand : nat -> R)
    (pair : PairResult) :
  inv 0 ->
  (forall i x, inv x -> inv (next_spread (half_life pair) (rand i) x)) ->
  exists interior : list SeriesPoint,
    Forall (fun p => inv (value p)) interior /\
    map time interior = map (day_of now) (seq 0 251) /\
    synthesize now rand pair =
    Returns
      (mkSeries
         (interior ++ [mkPoint (day_of now 251)
                         (z_score pair * rollingSigma (half_life pair))])
         (map (fun i => mkPoint (day_of now i)
                          (2 * rollingSigma (half_life pair))) (seq 0 days))
         (map (fun i => mkPoint (day_of now i)
                          (-2 * rollingSigma (half_life pair))) (seq 0 days))
         (map (fun i => mkPoint (day_of now i) 0) (seq 0 days))).
Proof.
  intros H0 Hstep. unfold synthesize, run_loop.
  pose proof (loop_bands now rand (half_life pair) (seq 0 days)
                (0, mkSeries [] [] [] [])) as Hb.
  cbv zeta in Hb. cbn [snd upperBand lowerBand meanLine data app] in Hb.
  destruct Hb as (Hu & Hl & Hm & _).
  pose proof (@loop_path now rand (half_life pair) inv (seq 0 days)
                (fun i x _ Hx => Hstep i x Hx) (0, mkSeries [] [] [] [])
                H0 (Forall_nil _)) as Hp.
  cbv zeta in Hp. cbn [snd data map app] in Hp.
  destruct Hp as (_ & Hall & Ht).
  destruct (fold_left (loop_body now rand (half_life pair)) (seq 0 days)
              (0, mkSeries [] [] [] [])) as [spread s].
  cbn [snd] in *.
  assert (Hsplit : map (day_of now) (seq 0 days)
                   = map (day_of now) (seq 0 251) ++ [day_of now 251]).
  { unfold days. rewrite (seq_S 251 0), map_app. reflexivity. }
  rewrite Hsplit in Ht.
  destruct (exists_last (l := data s)) as (d & p & Hd).
  { intros E. rewrite E in Ht. apply (f_equal (@List.length Z)) in Ht.
    rewrite length_app in Ht. simpl in Ht. lia. }
  rewrite Hd in Ht, Hall |- *. rewrite map_app in Ht.
  change (map time [p]) with [time p] in Ht.
  apply app_inj_tail in Ht. destruct Ht as [Hti Htp].
  apply Forall_app in Hall. destruct Hall as [Hint _].
  exists d. split; [exact Hint|]. split; [exact Hti|].
  rewrite set_last_value_snoc, Htp, Hu, Hl, Hm. reflexivity.
Qed.


(** X21. For a positive half-life and draws between 0 (included) and 1
    (excluded), every point of the path before the anchor stays within
    [sqrt (1 - phi^2) / (1 - phi)] of zero. *)
Theorem interior_path_is_bounded :
  forall (now : Z) (rand : nat -> R) (pair : PairResult),
    0 < half_life pair ->
    (forall i, 0 <= rand i < 1) ->
    let f := phi (half_life pair) in
    exists s,
      synthesize now rand pair = Returns s /\
      forall i p, (i < 251)%nat -> nth_error (data s) i = Some p ->
        Rabs (value p) <= sqrt (1 - f * f) / (1 - f).
Proof.
  intros now rand pair Hh Hr f.
  destruct (phi_range Hh) as [H0 H1]. fold f in H0, H1.
  pose proof (sqrt_one_minus_phi2_pos Hh) as Hc. fold f in Hc.
  set (c := sqrt (1 - f * f)) in *.
  set (B := c / (1 - f)).
  assert (HB : B * (1 - f) = c) by (unfold B; field; lra).
  assert (HBpos : 0 < B) by (unfold B; apply Rdiv_lt_0_compat; lra).
  destruct (@synthesize_path (fun x => - B <= x <= B) now rand pair)
    as (interior & Hint & Hti & Hs).
  - lra.
  - intros i x Hx. unfold next_spread, sigma. fold f. fold c.
    specialize (Hr i). nra.
  - eexists. split; [exact Hs|]. cbn [data].
    intros i q Hi Hq.
    assert (Hlen : List.length interior = 251%nat).
    { rewrite <- (length_map time), Hti, length_map, length_seq.
      reflexivity. }
    rewrite nth_error_app1 in Hq by lia.
    apply nth_error_In in Hq. rewrite Forall_forall in Hint.
    apply Rabs_le. apply Hint. exact Hq.
Qed.

Lemma interior_path_is_bounded_witness :
  exists s,
    synthesize 0 (fun _ => 0.5) (pair_of 30 2.5) = Returns s /\
    forall i p, (i < 251)%nat -> nth_error (data s) i = Some p ->
      Rabs (value p) <= sqrt (1 - phi 30 * phi 30) / (1 - phi 30).
Proof.
  apply (@interior_path_is_bounded 0%Z (fun _ => 0.5) (pair_of 30 2.5)).
  - simpl. lra.
  - intros _. lra.
Defined.

(** X22. For a positive half-life the anchor lies above the upper band
    exactly when the z-score exceeds 2, and below the lower band
    exactly when it is under -2. *)
Theorem anchor_outside_bands :
  forall (now : Z) (rand : nat -> R) (pair : PairResult),
    0 < half_life pair ->
    exists s a,
      synthesize now rand pair = Returns s /\
      final (data s) = Some a /\
      (Forall (fun u => value u < value a) (upperBand s)
       <-> 2 < z_score pair) /\
      (Forall (fun l => value a < value l) (lowerBand s)
       <-> z_score pair < -2).
Proof.
  intros now rand pair Hh.
  destruct (synthesize_returns now rand pair) as (interior & _ & _ & Hs).
  assert (Hrs : 0 < rollingSigma (half_life pair)).
  { rewrite (rollingSigma_positive_half_life Hh). apply sqrt_lt_R0.
    pose proof ln2_pos. apply Rdiv_lt_0_compat; lra. }
  set (rs := rollingSigma (half_life pair)) in *.
  eexists. eexists. split; [exact Hs|]. cbn [data upperBand lowerBand].
  split; [apply ApiFacts.final_snoc|]. cbn [value].
  assert (Hband : forall (v : R) (P : R -> Prop),
            Forall (fun q => P (value q))
                   (map (fun i => mkPoint (day_of now i) v) (seq 0 days))
            <-> P v).
  { intros v P. split.
    - intros HF. rewrite Forall_forall in HF.
      apply (HF (mkPoint (day_of now 0) v)).
      apply in_map_iff. exists 0%nat. split; [reflexivity|].
      apply in_seq. unfold days. lia.
    - intros HP. apply Forall_forall. intros q Hq.
      apply in_map_iff in Hq. destruct Hq as (i & <- & _). exact HP. }
  split.
  - rewrite (Hband (2 * rs) (fun x => x < z_score pair * rs)). split; nra.
  - rewrite (Hband (-2 * rs) (fun x => z_score pair * rs < x)). split; nra.
Qed.

Lemma anchor_outside_bands_witness :
  exists s a,
    synthesize 0 (fun _ => 0.5) (pair_of 30 2.5) = Returns s /\
    final (data s) = Some a /\
    Forall (fun u => value u < value a) (upperBand s).
Proof.
  destruct (@anchor_outside_bands 0%Z (fun _ => 0.5) (pair_of 30 2.5))
    as (s & a & Hs & Ha & Hup & _).
  - simpl. lra.
  - exists s, a. split; [exact Hs|]. split; [exact Ha|].
    apply Hup. simpl. lra.
Defined.

End SynthMore.
